(** * The anatomy of a shell, part 1: a read-and-run shell

    A shallow embedding of [main.cpp]: the tokenizer [parse_input], the
    launcher [exec_command] (fork / execvp / wait, with the SIGINT
    disposition toggled around the wait), the prompt step [repl_loop] and
    [main].

    The program is written in a small monad [M] over a [kernel] record: the
    part of the operating system that one process can observe, with a log of
    the calls the process has made.  What the operating system decides on its
    own is data of that record, so that every run is a function and can be
    evaluated: whether [fork] succeeds and in which of the two processes the
    run goes on ([k_forks]), whether [execvp] can start a file ([k_exec]),
    how the children of the process terminate and in which order [wait]
    reports them ([k_children]).

    Sizes ([size_t]) are [nat]: a string that fits in memory is shorter than
    [2^64] characters.  Pids and statuses ([pid_t], [int]) are [Z].  [cout]
    and [cerr] are logged statement by statement, each as the list of the
    chunks inserted.  The input is the shell's own: what a launched program
    takes from it, and what the [exit] of a child does to a seekable input
    that it shares with the shell (the file offset is set back, so that the
    shell can read lines again), are not modelled. *)

From Stdlib Require Import ZArith Lia Ascii String.
From stdpp Require Import base list strings.

Open Scope Z_scope.
Open Scope string_scope.

(** ** Data of the program *)

(** [struct command { string file; vector<string> args; }] *)
Record command := Command { file : string; args : list string }.

(** Cells of a [char *argv[]] array: not yet written, [nullptr], or the
    pointer [s.c_str()] to the characters of the string [s].  The cell is
    the pointer; what is read through it as a C string ends at the first NUL
    byte of [s] ([c_string] below). *)
Inductive cptr := Uninit | NullPtr | CStr (s : string).

(** The C string at [s.c_str()]: the characters of [s] before its first NUL
    byte. *)
Fixpoint c_string (s : string) : string :=
  match s with
  | EmptyString => EmptyString
  | String ch s' =>
      if Ascii.eqb ch Ascii.zero then EmptyString
      else String ch (c_string s')
  end.

(** The argument vector as [execvp] reads it from the array: the C strings
    of the cells before the first null pointer. *)
Fixpoint argv_as_read (argv : list cptr) : list string :=
  match argv with
  | CStr s :: rest => c_string s :: argv_as_read rest
  | _ => []
  end.

(** A string without a NUL byte. *)
Definition nul_free (s : string) : Prop :=
  ~ In Ascii.zero (list_ascii_of_string s).

(** ** Data of the operating system *)

(** Disposition of a signal: [SIG_DFL], [SIG_IGN] or a handler function. *)
Inductive handler := SIG_DFL | SIG_IGN | SIG_CUSTOM.

(** How a process ended: [WIFEXITED] with [WEXITSTATUS], or [WIFSIGNALED]
    with [WTERMSIG]. *)
Inductive wstatus := Exited (code : Z) | Signaled (sig : Z).

Definition SIGINT : Z := 2.
Definition ENOENT : Z := 2.
Definition ECHILD : Z := 10.
Definition EAGAIN : Z := 11.

(** [WEXITSTATUS] of a process that called [exit(status)]: the low eight bits
    ([status & 0377]). *)
Definition wexitstatus (status : Z) : Z := Z.land status 255.

Inductive stream := Stdout | Stderr.

(** What one [<<] inserts into a stream. *)
Inductive chunk :=
| Str (s : string)
| Num (n : Z)
| StrError (errnum : Z)   (* the text [strerror(errnum)] *)
| Endl.

(** An unwaited child: its pid and the way it terminates, [None] when it
    never does. *)
Definition child : Type := positive * option wstatus.

(** What [fork()] does a given time, and in which of the two processes the
    run goes on. *)
Inductive fork_answer :=
| ForkFails (errnum : Z)
    (* no process is created, [fork] returns -1 *)
| InChild (pid : positive)
    (* we go on in the new process, whose pid is [pid]: [fork] returns 0 *)
| InParent (c : positive) (fate : option wstatus) (rank : nat).
    (* we go on in the parent: [fork] returns [c]; the child terminates as
       [fate], after [rank] of the children the parent already had *)

Inductive event :=
| EvWrite (fd : stream) (text : list chunk)
| EvFork (ret : Z)
| EvExecvp (path : string) (argv : list cptr) (err : option Z)
| EvExit (status : Z)
| EvSignal (sig : Z) (h : handler)
| EvWait (ret : Z) (st : option wstatus)
| EvGetline (line : string).

(** One entry of the log: a call, and right after it the SIGINT disposition
    of the process and the pids of its unwaited children. *)
Record obs := Obs { ev : event; disp : handler; unwaited : list positive }.

Record kernel := Kernel {
  k_pid : Z;                      (* [getpid()] *)
  k_sigint : handler;             (* disposition of SIGINT *)
  k_sigchld_ign : bool;           (* SIGCHLD is set to [SIG_IGN] (inherited) *)
  k_children : list child;        (* unwaited children, in the order in which
                                     [wait] reports them *)
  k_errno : Z;
  k_exec : string -> list cptr -> option Z;
                                  (* [execvp]: [None] when the image can be
                                     started, else the errno *)
  k_forks : list fork_answer;     (* the coming [fork] calls *)
  k_stdin : string;               (* what is left to read on [cin] *)
  k_eof : bool;                   (* [cin.eof()] *)
  k_trace : list obs              (* log of the calls made so far *)
}.

Definition set_pid (p : Z) (k : kernel) : kernel :=
  Kernel p (k_sigint k) (k_sigchld_ign k) (k_children k) (k_errno k)
         (k_exec k) (k_forks k) (k_stdin k) (k_eof k) (k_trace k).
Definition set_sigint (h : handler) (k : kernel) : kernel :=
  Kernel (k_pid k) h (k_sigchld_ign k) (k_children k) (k_errno k)
         (k_exec k) (k_forks k) (k_stdin k) (k_eof k) (k_trace k).
Definition set_children (cs : list child) (k : kernel) : kernel :=
  Kernel (k_pid k) (k_sigint k) (k_sigchld_ign k) cs (k_errno k)
         (k_exec k) (k_forks k) (k_stdin k) (k_eof k) (k_trace k).
Definition set_errno (e : Z) (k : kernel) : kernel :=
  Kernel (k_pid k) (k_sigint k) (k_sigchld_ign k) (k_children k) e
         (k_exec k) (k_forks k) (k_stdin k) (k_eof k) (k_trace k).
Definition set_sigchld_ign (b : bool) (k : kernel) : kernel :=
  Kernel (k_pid k) (k_sigint k) b (k_children k) (k_errno k)
         (k_exec k) (k_forks k) (k_stdin k) (k_eof k) (k_trace k).
Definition set_exec (exec : string -> list cptr -> option Z) (k : kernel)
  : kernel :=
  Kernel (k_pid k) (k_sigint k) (k_sigchld_ign k) (k_children k) (k_errno k)
         exec (k_forks k) (k_stdin k) (k_eof k) (k_trace k).
Definition set_forks (fs : list fork_answer) (k : kernel) : kernel :=
  Kernel (k_pid k) (k_sigint k) (k_sigchld_ign k) (k_children k) (k_errno k)
         (k_exec k) fs (k_stdin k) (k_eof k) (k_trace k).
Definition set_stdin (s : string) (e : bool) (k : kernel) : kernel :=
  Kernel (k_pid k) (k_sigint k) (k_sigchld_ign k) (k_children k) (k_errno k)
         (k_exec k) (k_forks k) s e (k_trace k).
Definition set_trace (tr : list obs) (k : kernel) : kernel :=
  Kernel (k_pid k) (k_sigint k) (k_sigchld_ign k) (k_children k) (k_errno k)
         (k_exec k) (k_forks k) (k_stdin k) (k_eof k) tr.

(** Append a call to the log, with the state it leaves. *)
Definition log (e : event) (k : kernel) : kernel :=
  set_trace (k_trace k ++ [Obs e (k_sigint k) (map fst (k_children k))])%list k.

(** ** The monad of one process *)

Inductive outcome (A : Type) : Type :=
| Returns (a : A) (k : kernel)        (* the code returns [a] *)
| Throws (what : string) (k : kernel) (* a [std::string] exception propagates *)
| Exits (status : Z) (k : kernel)     (* the process called [exit(status)] *)
| Replaced (path : string) (argv : list cptr) (k : kernel)
                                      (* [execvp] replaced the process image *)
| Blocks (k : kernel)                 (* a call never returns *)
| OutOfFuel (k : kernel).             (* the loop bound of the model is used up *)
Arguments Returns {A} a k.
Arguments Throws {A} what k.
Arguments Exits {A} status k.
Arguments Replaced {A} path argv k.
Arguments Blocks {A} k.
Arguments OutOfFuel {A} k.

Definition M (A : Type) : Type := kernel -> outcome A.

#[global] Instance M_ret : MRet M := fun A a k => Returns a k.

#[global] Instance M_bind : MBind M := fun A B f m k =>
  match m k with
  | Returns a k' => f a k'
  | Throws e k' => Throws e k'
  | Exits s k' => Exits s k'
  | Replaced p v k' => Replaced p v k'
  | Blocks k' => Blocks k'
  | OutOfFuel k' => OutOfFuel k'
  end.

(** The kernel an outcome leaves behind, and the value returned, if any. *)
Definition final {A} (o : outcome A) : kernel :=
  match o with
  | Returns _ k | Throws _ k | Exits _ k | Replaced _ _ k
  | Blocks k | OutOfFuel k => k
  end.

Definition return_value {A} (o : outcome A) : option A :=
  match o with Returns a _ => Some a | _ => None end.

(** [throw e] and [try { m } catch (const string &e) { h e }]. *)
Definition throw {A} (e : string) : M A := fun k => Throws e k.

Definition try_catch {A} (m : M A) (h : string -> M A) : M A := fun k =>
  match m k with
  | Throws e k' => h e k'
  | o => o
  end.

(** A range-based [for] over a vector. *)
Fixpoint for_each {A} (l : list A) (body : A -> M unit) : M unit :=
  match l with
  | [] => mret tt
  | x :: l' => body x ;; for_each l' body
  end.

(** ** System and library calls *)

Definition getpid : M Z := fun k => Returns (k_pid k) k.

Definition write (fd : stream) (text : list chunk) : M unit := fun k =>
  Returns tt (log (EvWrite fd text) k).
Definition cout := write Stdout.
Definition cerr := write Stderr.

(** [get_errno] reads [errno]. *)
Definition get_errno : M Z := fun k => Returns (k_errno k) k.

(** The new child [c] takes its place in the order of termination. *)
Definition insert_at (rank : nat) (c : child) (cs : list child) : list child :=
  (take rank cs ++ c :: drop rank cs)%list.

(** The answer to the next [fork()]; when the list is used up the kernel
    refuses (EAGAIN). *)
Definition next_fork (k : kernel) : fork_answer * list fork_answer :=
  match k_forks k with
  | [] => (ForkFails EAGAIN, [])
  | a :: fs => (a, fs)
  end.

Definition fork : M Z := fun k =>
  match next_fork k with
  | (ForkFails e, fs) =>
      Returns (-1) (log (EvFork (-1)) (set_errno e (set_forks fs k)))
  | (InChild pid, fs) =>
      Returns 0 (log (EvFork 0)
                   (set_pid (Z.pos pid) (set_children [] (set_forks fs k))))
  | (InParent c fate rank, fs) =>
      Returns (Z.pos c)
        (log (EvFork (Z.pos c))
             (set_children (insert_at rank (c, fate) (k_children k))
                           (set_forks fs k)))
  end.

(** [execvp(path, argv)] returns only when it fails.  On success the
    outcome holds the kernel at the call; in the new image a caught signal
    would be back at its default, and [main.cpp] installs no handler. *)
Definition execvp (path : string) (argv : list cptr) : M Z := fun k =>
  match k_exec k path argv with
  | None => Replaced path argv (log (EvExecvp path argv None) k)
  | Some e => Returns (-1) (log (EvExecvp path argv (Some e)) (set_errno e k))
  end.

(** [exit(status)] does not return. *)
Definition exit {A} (status : Z) : M A := fun k =>
  Exits status (log (EvExit status) k).

(** [signal(sig, h)] returns the previous disposition; only SIGINT is
    tracked. *)
Definition signal (sig : Z) (h : handler) : M handler := fun k =>
  if (sig =? SIGINT)%Z
  then Returns (k_sigint k) (log (EvSignal sig h) (set_sigint h k))
  else Returns SIG_DFL (log (EvSignal sig h) k).

(** The first child of the list that terminates, and the children left. *)
Fixpoint reap (cs : list child) : option (positive * wstatus * list child) :=
  match cs with
  | [] => None
  | (c, Some st) :: cs' => Some (c, st, cs')
  | (c, None) :: cs' =>
      match reap cs' with
      | Some (d, st, rest) => Some (d, st, (c, None) :: rest)
      | None => None
      end
  end.

Definition terminates (c : child) : bool :=
  match snd c with Some _ => true | None => false end.

(** What a [wait] finds: it blocks for ever, fails with ECHILD, or reports
    a terminated child; in the last two cases the children left.  Without
    children the call fails.  When SIGCHLD is ignored no child is ever left
    to report: the call blocks until all of them have terminated and then
    fails. *)
Inductive wait_result :=
| WaitBlocks
| WaitFails (rest : list child)
| WaitReaps (c : positive) (st : wstatus) (rest : list child).

Definition wait_on (sigchld_ign : bool) (cs : list child) : wait_result :=
  if sigchld_ign then
    if forallb terminates cs then WaitFails [] else WaitBlocks
  else
    match cs with
    | [] => WaitFails []
    | _ =>
        match reap cs with
        | Some (c, st, rest) => WaitReaps c st rest
        | None => WaitBlocks
        end
    end.

(** [wait(wstatus)] returns the pid of a terminated child of the caller,
    any of them; the status is stored only through a pointer that is not
    null ([store]). *)
Definition wait (store : bool) : M (Z * option wstatus) := fun k =>
  match wait_on (k_sigchld_ign k) (k_children k) with
  | WaitBlocks => Blocks k
  | WaitFails rest =>
      Returns (-1, None)
        (log (EvWait (-1) None) (set_errno ECHILD (set_children rest k)))
  | WaitReaps c st rest =>
      Returns (Z.pos c, if store then Some st else None)
        (log (EvWait (Z.pos c) (Some st)) (set_children rest k))
  end.

(** [getline(in, input)]: the characters up to the next newline, which is
    taken off the stream; at the end of the input the eof bit is set. *)
Definition newline : ascii := ascii_of_nat 10.

Fixpoint read_line (s : string) : string * option string :=
  match s with
  | EmptyString => (EmptyString, None)
  | String c s' =>
      if Ascii.eqb c newline then (EmptyString, Some s')
      else let (l, r) := read_line s' in (String c l, r)
  end.

Definition getline : M string := fun k =>
  match read_line (k_stdin k) with
  | (line, Some rest) =>
      Returns line (log (EvGetline line) (set_stdin rest (k_eof k) k))
  | (line, None) =>
      Returns line (log (EvGetline line) (set_stdin EmptyString true k))
  end.

Definition eof : M bool := fun k => Returns (k_eof k) k.

(** ** The program *)

(** A counted loop [for (size_t i = 0; i < n; ++i) body]. *)
Definition for_range {S} (n : nat) (body : nat -> S -> S) (s : S) : S :=
  fold_left (fun s i => body i s) (seq 0 n) s.

(** [input.substr(pos, len)] and [input.substr(pos)]. *)
Definition substr (input : string) (pos len : nat) : string :=
  String.substring pos len input.
Definition substr_from (input : string) (pos : nat) : string :=
  String.substring pos (String.length input - pos) input.

(** One turn of the loop of [parse_input], on the pair
    [(parts, last_index)]. *)
Definition parse_step (input : string) (i : nat) (st : list string * nat)
  : list string * nat :=
  let (parts, last_index) := st in
  match String.get i input with
  | Some ch =>
      if Ascii.eqb ch " "
      then ((parts ++ [substr input last_index (i - last_index)])%list,
            (i + 1)%nat)
      else st
  | None => st
  end.

Definition parse_parts (input : string) : list string :=
  let (parts, last_index) :=
    for_range (String.length input) (parse_step input) ([], 0%nat) in
  if (last_index <? String.length input)%nat
  then (parts ++ [substr_from input last_index])%list
  else parts.

(** [parse_input]: [inl] is the string thrown. *)
Definition parse_input (input : string) : string + command :=
  match parse_parts input with
  | [] => inl "Empty command"
  | p0 :: rest => inr (Command p0 rest)
  end.

Definition DEBUG : bool := true.

Definition nl : string := String newline EmptyString.
Definition tab : string := String (ascii_of_nat 9) EmptyString.

(** The array [argv] the child fills in before [execvp]. *)
Definition build_argv (cmd : command) : list cptr :=
  let n := length (args cmd) in
  let argv := replicate (n + 2) Uninit in
  let argv := <[0%nat := CStr (file cmd)]> argv in
  let argv :=
    for_range n
      (fun i argv => <[(i + 1)%nat := CStr (default "" (args cmd !! i))]> argv)
      argv in
  <[(n + 1)%nat := NullPtr]> argv.

Definition debug (text : Z -> list chunk) : M unit :=
  if DEBUG then self ← getpid; cout (text self) else mret tt.

Definition exec_command (cmd : command) : M unit :=
  (if DEBUG then
     self ← getpid;
     cout [Str "["; Num self;
           Str ("] command is:" +:+ nl +:+ tab +:+ "file = ");
           Str (file cmd); Str (nl +:+ tab +:+ "args = ")];;
     for_each (args cmd) (fun arg => cout [Str arg; Str " "]);;
     cout [Endl]
   else mret tt);;
  pid ← fork;
  if (pid =? 0)%Z then
    debug (fun self => [Str "["; Num self; Str "] in child after fork()"; Endl]);;
    let argv := build_argv cmd in
    execvp (file cmd) argv;;
    (* execvp() will only return on error *)
    errnum ← get_errno;
    cout [Str "execvp failed with error: "; StrError errnum; Endl];;
    exit (-1)
  else
    debug (fun self => [Str "["; Num self; Str "] in parent after fork()"; Endl]);;
    signal SIGINT SIG_IGN;;
    wait false;;
    signal SIGINT SIG_DFL;;
    debug (fun self => [Str "["; Num self; Str "] after wait()"; Endl]).

Definition repl_loop : M bool :=
  cout [Str "> "];;
  input ← getline;
  cmd ← match parse_input input with
        | inl what => throw what
        | inr cmd => mret cmd
        end;
  if String.eqb (file cmd) "exit" then
    cout [Str "exiting!"; Endl];;
    mret false
  else
    exec_command cmd;;
    mret true.

(** [while (!in.eof()) { if (!repl_loop(in)) break; }], at most [fuel]
    turns. *)
Fixpoint main_loop (fuel : nat) : M unit :=
  match fuel with
  | O => fun k => OutOfFuel k
  | S fuel' =>
      at_end ← eof;
      if at_end : bool then mret tt
      else
        go_on ← repl_loop;
        if go_on : bool then main_loop fuel' else mret tt
  end.

Definition main (fuel : nat) : M Z :=
  try_catch (main_loop fuel)
    (fun errstr => cerr [Str "Fatal error: "; Str errstr; Endl]);;
  mret 0.

(** A process that starts: nothing logged, no children. *)
Definition boot (pid : Z) (h : handler) (exec : string -> list cptr -> option Z)
    (forks : list fork_answer) (input : string) : kernel :=
  Kernel pid h false [] 0 exec forks input false [].

(** ** Reading a run *)

(** The calls logged between two kernels of one run. *)
Definition calls (k k' : kernel) : list obs :=
  drop (length (k_trace k)) (k_trace k').
Definition events (k k' : kernel) : list event := map ev (calls k k').

(** An event as it is logged in state [k], and a batch of events that do not
    change the state. *)
Definition seen (k : kernel) (e : event) : obs :=
  Obs e (k_sigint k) (map fst (k_children k)).
Definition logs (es : list event) (k : kernel) : kernel :=
  set_trace (k_trace k ++ map (seen k) es)%list k.

(** What [exec_command] prints before it forks. *)
Definition announce (cmd : command) (self : Z) : list event :=
  (EvWrite Stdout [Str "["; Num self;
                  Str ("] command is:" +:+ nl +:+ tab +:+ "file = ");
                  Str (file cmd); Str (nl +:+ tab +:+ "args = ")]
   :: map (fun arg => EvWrite Stdout [Str arg; Str " "]) (args cmd)
   ++ [EvWrite Stdout [Endl]])%list.

(** The two sides of [exec_command] after the fork. *)
Definition in_child_text (self : Z) : list chunk :=
  [Str "["; Num self; Str "] in child after fork()"; Endl].
Definition in_parent_text (self : Z) : list chunk :=
  [Str "["; Num self; Str "] in parent after fork()"; Endl].
Definition after_wait_text (self : Z) : list chunk :=
  [Str "["; Num self; Str "] after wait()"; Endl].
Definition failed_text (errnum : Z) : list chunk :=
  [Str "execvp failed with error: "; StrError errnum; Endl].

(** The kernel once [repl_loop] has written the prompt and read a line. *)
Definition after_getline (k : kernel) : kernel :=
  final (getline (log (EvWrite Stdout [Str "> "]) k)).

(** The child's side up to [execvp]. *)
Definition child_start (cmd : command) (pid : positive)
    (fs : list fork_answer) (k : kernel) : kernel :=
  log (EvWrite Stdout (in_child_text (Z.pos pid)))
    (log (EvFork 0)
       (set_pid (Z.pos pid)
          (set_children [] (set_forks fs (logs (announce cmd (k_pid k)) k))))).

(** The parent's side from the return of [fork] on: SIGINT is ignored, the
    process waits, SIGINT is set to the default. *)
Definition ignoring (k2 : kernel) : kernel :=
  log (EvSignal SIGINT SIG_IGN)
    (set_sigint SIG_IGN (log (EvWrite Stdout (in_parent_text (k_pid k2))) k2)).

Definition restored (k4 : kernel) : kernel :=
  log (EvWrite Stdout (after_wait_text (k_pid k4)))
    (log (EvSignal SIGINT SIG_DFL) (set_sigint SIG_DFL k4)).

Definition wait_bracket (k2 : kernel) : outcome unit :=
  match wait_on (k_sigchld_ign k2) (k_children k2) with
  | WaitBlocks => Blocks (ignoring k2)
  | WaitFails rest =>
      Returns tt
        (restored (log (EvWait (-1) None)
                     (set_errno ECHILD (set_children rest (ignoring k2)))))
  | WaitReaps c st rest =>
      Returns tt
        (restored (log (EvWait (Z.pos c) (Some st))
                     (set_children rest (ignoring k2))))
  end.

Definition parent_forked (cmd : command) (c : positive) (fate : option wstatus)
    (rank : nat) (fs : list fork_answer) (k : kernel) : kernel :=
  log (EvFork (Z.pos c))
    (set_children (insert_at rank (c, fate) (k_children k))
       (set_forks fs (logs (announce cmd (k_pid k)) k))).

Definition fork_failed (cmd : command) (e : Z) (fs : list fork_answer)
    (k : kernel) : kernel :=
  log (EvFork (-1)) (set_errno e (set_forks fs (logs (announce cmd (k_pid k)) k))).

(** ** Invariants and bounds *)

(** The loop of [parse_input] after [i] characters: [last_index] is behind
    the last space seen; without a space nothing is cut off yet; otherwise
    the first part is the text before the first space. *)
Definition parse_invariant (input : string) (i : nat)
    (st : list string * nat) : Prop :=
  let (parts, last_index) := st in
  (last_index <= i)%nat
  /\ match parts with
     | [] =>
         last_index = 0%nat
         /\ forall j, (j < i)%nat -> String.get j input <> Some " "%char
     | p :: _ =>
         exists j, (j < i)%nat /\ String.get j input = Some " "%char
                   /\ (forall j', (j' < j)%nat ->
                         String.get j' input <> Some " "%char)
                   /\ p = substring 0 j input
     end.

Definition is_out_of_fuel {A} (o : outcome A) : bool :=
  match o with OutOfFuel _ => true | _ => false end.

(** The turns the modelled loop of [main] can still make: one for each
    character left on [cin] and one to meet the end of the input. *)
Definition turns_left (k : kernel) : nat :=
  if k_eof k then 0%nat else Datatypes.S (String.length (k_stdin k)).

(** ** The launch seen from both sides *)

(** How the new process ends: by its own [exit], or the way the program that
    replaced its image does ([prog], [None] when it runs for ever). *)
Definition termination (prog : option wstatus) (o : outcome unit)
  : option wstatus :=
  match o with
  | Exits status _ => Some (Exited (wexitstatus status))
  | Replaced _ _ _ => prog
  | _ => None
  end.

(** [exec_command] in the child [c] that the next [fork] creates, and in its
    parent, where the child terminates the way its own run says. *)
Definition child_side (cmd : command) (c : positive) (k : kernel)
  : outcome unit :=
  exec_command cmd (set_forks [InChild c] k).

Definition parent_side (cmd : command) (c : positive) (prog : option wstatus)
    (rank : nat) (k : kernel) : outcome unit :=
  exec_command cmd
    (set_forks [InParent c (termination prog (child_side cmd c k)) rank] k).

(** File systems for the examples: every name can be started, or none. *)
Definition found : string -> list cptr -> option Z := fun _ _ => None.
Definition missing : string -> list cptr -> option Z := fun _ _ => Some ENOENT.

(** Kinds of calls and of outcomes. *)
Definition is_fork (e : event) : bool :=
  match e with EvFork _ => true | _ => false end.
Definition is_execvp (e : event) : bool :=
  match e with EvExecvp _ _ _ => true | _ => false end.
Definition is_wait (e : event) : bool :=
  match e with EvWait _ _ => true | _ => false end.
Definition is_signal (e : event) : bool :=
  match e with EvSignal _ _ => true | _ => false end.
Definition is_stderr (e : event) : bool :=
  match e with EvWrite Stderr _ => true | _ => false end.
Definition is_prompt (e : event) : bool :=
  match e with EvWrite Stdout [Str "> "] => true | _ => false end.
Definition is_throw {A} (o : outcome A) : bool :=
  match o with Throws _ _ => true | _ => false end.

(** ** The statements under test, as the specification words them *)

(** The value [exec_command] returns tells how the launched program
    terminated: some reading [decode] of the returned value gives the
    termination status, whatever that status is. *)
Definition returns_status (cmd : command) (c : positive) (rank : nat)
    (k : kernel) : Prop :=
  exists decode : unit -> wstatus,
    forall st, exists r,
      return_value (parent_side cmd c (Some st) rank k) = Some r
      /\ decode r = st.

(** SIGINT around a launch of child [c]: the default before; not yet touched
    at the fork; ignored only while the child is unwaited, up to the [wait]
    that collects it; and on return the default again, the value it had
    before, the child being no longer unwaited. *)
Definition sigint_discipline (c : positive) (k : kernel) (o : outcome unit)
  : Prop :=
  k_sigint k = SIG_DFL
  /\ (forall x, In x (calls k (final o)) -> is_fork (ev x) = true ->
        disp x = k_sigint k)
  /\ (forall x, In x (calls k (final o)) -> disp x = SIG_IGN ->
        In c (unwaited x) \/ is_wait (ev x) = true)
  /\ (return_value o = Some tt ->
        k_sigint (final o) = SIG_DFL
        /\ k_sigint (final o) = k_sigint k
        /\ ~ In c (map fst (k_children (final o)))).

(** Every [wait] of the launch reports the launched child [c]. *)
Definition waits_for_launched (c : positive) (k : kernel) (o : outcome unit)
  : Prop :=
  forall r st, In (EvWait r st) (events k (final o)) -> r = Z.pos c.

(** The argument vector that [execvp] is given, as it reads it, is the
    executable followed by the arguments of the command. *)
Definition argv_delivered (cmd : command) (k : kernel) : Prop :=
  forall path argv err,
    In (EvExecvp path argv err) (events k (final (exec_command cmd k))) ->
    argv_as_read argv = file cmd :: args cmd.

(** A failed [fork] reaches the caller as an error, and neither [signal] nor
    [wait] is called.  [exec_command] returns no value, so that an error can
    reach its caller only as an exception. *)
Definition fork_failure_surfaced (k : kernel) (o : outcome unit) : Prop :=
  is_throw o = true
  /\ forallb (fun e => negb (is_signal e || is_wait e)) (events k (final o))
     = true.

(** After a failed [execvp] (errno [e]) the child writes a diagnostic with
    [strerror(e)] to the stream [fd] and exits with a status that the parent
    sees as non-zero. *)
Definition exec_failure_reported (fd : stream) (e : Z) (k : kernel)
    (o : outcome unit) : Prop :=
  (exists text, In (EvWrite fd text) (events k (final o))
                /\ In (StrError e) text)
  /\ exists status, o = Exits status (final o) /\ wexitstatus status <> 0.

(** A failed [wait]: SIGINT is the default again, and the failure reaches the
    caller as an error (an exception, for the same reason). *)
Definition wait_failure_surfaced (k : kernel) (o : outcome unit) : Prop :=
  In (EvWait (-1) None) (events k (final o)) ->
  k_sigint (final o) = SIG_DFL /\ is_throw o = true.

(** After a line that does not parse, with input left, the loop prompts
    again. *)
Definition loop_survives (k : kernel) : Prop :=
  forall what k1, repl_loop k = Throws what k1 -> k_eof k1 = false ->
  exists fuel,
    (2 <= length (List.filter is_prompt (events k (final (main fuel k)))))%nat.

(** ** The calls of each side, in closed form *)

(** What the parent logs from the return of [fork] on, in state [k2]. *)
Definition bracket_calls (k2 : kernel) : list obs :=
  let u := map fst (k_children k2) in
  Obs (EvWrite Stdout (in_parent_text (k_pid k2))) (k_sigint k2) u
  :: Obs (EvSignal SIGINT SIG_IGN) SIG_IGN u
  :: match wait_on (k_sigchld_ign k2) (k_children k2) with
     | WaitBlocks => []
     | WaitFails rest =>
         [Obs (EvWait (-1) None) SIG_IGN (map fst rest);
          Obs (EvSignal SIGINT SIG_DFL) SIG_DFL (map fst rest);
          Obs (EvWrite Stdout (after_wait_text (k_pid k2))) SIG_DFL
              (map fst rest)]
     | WaitReaps c st rest =>
         [Obs (EvWait (Z.pos c) (Some st)) SIG_IGN (map fst rest);
          Obs (EvSignal SIGINT SIG_DFL) SIG_DFL (map fst rest);
          Obs (EvWrite Stdout (after_wait_text (k_pid k2))) SIG_DFL
              (map fst rest)]
     end.

(** What the child logs from the return of [fork] on. *)
Definition child_calls (cmd : command) (pid : positive) (k : kernel)
  : list obs :=
  Obs (EvFork 0) (k_sigint k) []
  :: Obs (EvWrite Stdout (in_child_text (Z.pos pid))) (k_sigint k) []
  :: match k_exec k (file cmd) (build_argv cmd) with
     | None =>
         [Obs (EvExecvp (file cmd) (build_argv cmd) None) (k_sigint k) []]
     | Some e =>
         [Obs (EvExecvp (file cmd) (build_argv cmd) (Some e)) (k_sigint k) [];
          Obs (EvWrite Stdout (failed_text e)) (k_sigint k) [];
          Obs (EvExit (-1)) (k_sigint k) []]
     end.

(** ** Concrete runs *)

Definition echo_hello : command := Command "echo" ["hello"].

(** [echo] with one argument that holds a NUL byte: h, e, NUL, l, l, o. *)
Definition echo_nul : command :=
  Command "echo" ["he" +:+ String Ascii.zero "llo"].
Definition nonexistent_xyz : command := Command "nonexistent_xyz" [].

(** The shell is process 10; the next [fork] creates process 11. *)
Definition in_child_11 (exec : string -> list cptr -> option Z) : kernel :=
  boot 10 SIG_DFL exec [InChild 11] "".

Definition true_cmd : command := Command "true" [].
Definition sleep_5 : command := Command "sleep" ["5"].

(** The shell, process 10, with SIGINT at its default and no child. *)
Definition shell (forks : list fork_answer) : kernel :=
  boot 10 SIG_DFL found forks "".

(** The same shell holding an older child, process 7, which terminates
    before the child 11 that the next [fork] creates. *)
Definition shell_with_child_7 : kernel :=
  set_children [(7%positive, Some (Exited 0))]
    (shell [InParent 11 (Some (Exited 0)) 1]).

(** The shell when the kernel refuses to fork. *)
Definition shell_no_fork : kernel := shell [ForkFails EAGAIN].

(** The shell about to launch its only child, process 11, which will exit
    with status 0. *)
Definition shell_launch : kernel := shell [InParent 11 (Some (Exited 0)) 0].

(** The launching shell when it was started with SIGCHLD ignored. *)
Definition shell_sigchld_ignored : kernel := set_sigchld_ign true shell_launch.

(** The session of the README: the line [not_exist], then [exit]. *)
Definition shell_session : kernel :=
  boot 1071662 SIG_DFL missing [InParent 1072167 (Some (Exited 255)) 0]
       ("not_exist" +:+ nl +:+ "exit" +:+ nl).

(** The shell reading an empty line followed by the line [ls]. *)
Definition shell_empty_line : kernel :=
  boot 10 SIG_DFL found [] (nl +:+ "ls" +:+ nl).

(** The shell reading the line [nonexistent_xyz]; it is the parent of the
    child 11, whose [execvp] fails, so that it exits with status 255. *)
Definition shell_bad_command : kernel :=
  boot 10 SIG_DFL missing [InParent 11 (Some (Exited 255)) 0]
       ("nonexistent_xyz" +:+ nl +:+ "ls" +:+ nl).


(** ** More on the tokenizer *)

(** The characters of a string, and the parts of a line laid end to end, a
    space behind each. *)
Definition chars (s : string) : list ascii := list_ascii_of_string s.

Definition spaced (parts : list string) : list ascii :=
  flat_map (fun p => chars p ++ [" "%char])%list parts.

(** [input.back() == ' '], false on the empty line. *)
Definition ends_with_space (input : string) : bool :=
  match String.get (String.length input - 1) input with
  | Some ch => Ascii.eqb ch " "
  | None => false
  end.

(** The loop of [parse_input] after [i] characters, in full: the parts cut
    off so far, a space behind each, are the first [last_index] characters
    of the line; no part holds a space; and there is no space from
    [last_index] up to [i]. *)
Definition split_invariant (input : string) (i : nat)
    (st : list string * nat) : Prop :=
  let (parts, last_index) := st in
  (last_index <= i)%nat
  /\ spaced parts = take last_index (chars input)
  /\ Forall (fun p => ~ In " "%char (chars p)) parts
  /\ forall j, (last_index <= j < i)%nat -> chars input !! j <> Some " "%char.

(** The number of spaces of a line. *)
Definition is_space (ch : ascii) : bool := Ascii.eqb ch " ".
Definition count_spaces (input : string) : nat :=
  length (List.filter is_space (chars input)).

(** ** More concrete runs *)

(** The shell started with SIGINT ignored, about to launch its only child. *)
Definition shell_sigint_ignored : kernel :=
  boot 10 SIG_IGN found [InParent 11 (Some (Exited 0)) 0] "".

(** The shell whose input is the line [ls] without a newline behind it. *)
Definition shell_last_line : kernel :=
  boot 10 SIG_DFL found [InParent 11 (Some (Exited 0)) 0] "ls".

(** The shell whose input is used up, the end of it not yet met. *)
Definition shell_no_input : kernel := boot 10 SIG_DFL found [] "".

(** The shell reading the line [exit now], then the line [ls]. *)
Definition shell_exit_line : kernel :=
  boot 10 SIG_DFL found [] ("exit now" +:+ nl +:+ "ls" +:+ nl).

(** ** A whole session *)

(** The shell between two launches: SIGINT at its default, no unwaited
    child. *)
Definition calm (k : kernel) : Prop :=
  k_sigint k = SIG_DFL /\ k_children k = [].

(** What holds right after every call of a session: at most one child is
    unwaited; at a [fork] SIGINT is at its default, for the child to inherit;
    and SIGINT is ignored only by the [signal] call that says so and by the
    [wait] that follows it. *)
Definition orderly (x : obs) : Prop :=
  (length (unwaited x) <= 1)%nat
  /\ (is_fork (ev x) = true -> disp x = SIG_DFL)
  /\ (disp x = SIG_IGN -> is_signal (ev x) = true \/ is_wait (ev x) = true).

(** From [k] to [k'] the log has only grown, by orderly calls. *)
Definition run_ok (k k' : kernel) : Prop :=
  exists l, k_trace k' = (k_trace k ++ l)%list /\ Forall orderly l.

(** ** The parent after the fork *)

Definition is_exit (e : event) : bool :=
  match e with EvExit _ => true | _ => false end.

(** The unwaited children of the process once the next [fork] is done. *)
Definition children_after_fork (k : kernel) : list child :=
  match fst (next_fork k) with
  | InParent c fate rank => insert_at rank (c, fate) (k_children k)
  | InChild _ => []
  | ForkFails _ => k_children k
  end.

(** ** The tokenizer *)

Lemma for_range_ind {S} (P : nat -> S -> Prop) (n : nat) body (s : S) :
  P 0%nat s ->
  (forall i s, (i < n)%nat -> P i s -> P (Datatypes.S i) (body i s)) ->
  P n (for_range n body s).
Proof.
  unfold for_range. induction n as [|n IH]; intros H0 Hstep; [exact H0|].
  rewrite seq_S, fold_left_app. simpl. apply Hstep; [lia|].
  apply IH; [exact H0|]. intros i s' Hi. apply Hstep. lia.
Qed.

Lemma substring_0_length (s : string) (j : nat) :
  (j <= String.length s)%nat -> String.length (substring 0 j s) = j.
Proof.
  revert j. induction s as [|c s IH]; intros [|j] Hj; simpl in *; try lia.
  rewrite IH; lia.
Qed.

Lemma substring_0_all (s : string) : substring 0 (String.length s) s = s.
Proof. induction s as [|c s IH]; simpl; [reflexivity|]. rewrite IH. reflexivity. Qed.

Lemma parse_loop_invariant (input : string) :
  parse_invariant input (String.length input)
    (for_range (String.length input) (parse_step input) ([], 0%nat)).
Proof.
  apply (for_range_ind (parse_invariant input)).
  - simpl. split; [lia|]. split; [reflexivity|]. intros j Hj. lia.
  - intros i [parts last_index] Hi [Hle Hparts]. unfold parse_step.
    destruct (String.get i input) as [ch|] eqn:Hget.
    + destruct (Ascii.eqb ch " ") eqn:Hch.
      * apply Ascii.eqb_eq in Hch. subst ch. split; [lia|].
        destruct parts as [|p ps]; simpl.
        -- destruct Hparts as [-> Hnone]. exists i.
           split; [lia|]. split; [exact Hget|]. split; [exact Hnone|].
           unfold substr. rewrite Nat.sub_0_r. reflexivity.
        -- destruct Hparts as (j & Hj & Hsp & Hmin & Hp). exists j.
           split; [lia|]. auto.
      * split; [lia|]. destruct parts as [|p ps].
        -- destruct Hparts as [-> Hnone]. split; [reflexivity|].
           intros j Hj. destruct (Nat.eq_dec j i) as [->|Hne].
           ++ rewrite Hget. intros [= ->]. discriminate Hch.
           ++ apply Hnone. lia.
        -- destruct Hparts as (j & Hj & Hrest). exists j. split; [lia|auto].
    + split; [lia|]. destruct parts as [|p ps].
      * destruct Hparts as [-> Hnone]. split; [reflexivity|].
        intros j Hj. destruct (Nat.eq_dec j i) as [->|Hne].
        -- rewrite Hget. discriminate.
        -- apply Hnone. lia.
      * destruct Hparts as (j & Hj & Hrest). exists j. split; [lia|auto].
Qed.

(** [parse_input] throws on the empty line and on no other: a line of
    spaces is not an empty command for it. *)
Lemma parse_input_throws_iff (input : string) :
  (exists what, parse_input input = inl what) <-> input = "".
Proof.
  split.
  - intros [what H]. unfold parse_input, parse_parts in H.
    pose proof (parse_loop_invariant input) as Hinv.
    destruct (for_range _ _ _) as [parts last_index].
    destruct Hinv as [Hle Hparts].
    destruct parts as [|p ps].
    + destruct Hparts as [-> _].
      destruct (0 <? String.length input)%nat eqn:Hlen.
      * discriminate H.
      * apply Nat.ltb_ge in Hlen. destruct input; [reflexivity|simpl in Hlen; lia].
    + destruct (last_index <? String.length input)%nat; discriminate H.
  - intros ->. exists "Empty command". reflexivity.
Qed.

(** X2. The executable that [parse_input] returns is the text before the
    first space: it is empty exactly when the line starts with a space. *)
Lemma parse_input_empty_file (input : string) (cmd : command) :
  parse_input input = inr cmd ->
  (file cmd = "" <-> String.get 0 input = Some " "%char).
Proof.
  intros H. unfold parse_input, parse_parts in H.
  pose proof (parse_loop_invariant input) as Hinv.
  destruct (for_range _ _ _) as [parts last_index].
  destruct Hinv as [Hle Hparts].
  destruct parts as [|p ps].
  - destruct Hparts as [-> Hnone].
    destruct (0 <? String.length input)%nat eqn:Hlen; [|discriminate H].
    apply Nat.ltb_lt in Hlen. injection H as <-. simpl.
    unfold substr_from. rewrite Nat.sub_0_r, substring_0_all. split.
    + intros ->. simpl in Hlen. lia.
    + intros Hsp. destruct (Hnone 0%nat Hlen Hsp).
  - destruct Hparts as (j & Hj & Hsp & Hmin & ->).
    assert (Hfile : file cmd = substring 0 j input).
    { destruct (last_index <? String.length input)%nat;
        injection H as <-; reflexivity. }
    rewrite Hfile. split.
    + intros He. apply (f_equal String.length) in He.
      rewrite substring_0_length in He by lia. simpl in He. subst j. exact Hsp.
    + intros H0. destruct j as [|j]; [destruct input; reflexivity|].
      destruct (Hmin 0%nat); [lia|exact H0].
Qed.

(** C8, at the input that breaks it: for the line made of one space
    [parse_input] raises nothing and returns a command whose executable is
    the empty string. *)
Theorem parse_input_single_space :
  parse_input " " = inr (Command "" []).
Proof. vm_compute. reflexivity. Qed.

(** ** The argument vector *)

Section Argv.
Variable cmd : command.
Let n := length (args cmd).

(** The loop [for (i = 0; i < args.size(); ++i) argv[i + 1] = args[i]]
    after [i] turns: cell 0 and the first [i] arguments are written, the
    cells behind them are not. *)
Lemma argv_loop_invariant (c0 : cptr) (i : nat) :
  (i <= n)%nat ->
  for_range i
    (fun j argv => <[(j + 1)%nat := CStr (default "" (args cmd !! j))]> argv)
    (c0 :: replicate (n + 1) Uninit)
  = c0 :: (map CStr (take i (args cmd)) ++ replicate (n + 1 - i) Uninit)%list.
Proof.
  unfold for_range. induction i as [|i IH]; intros Hi.
  - simpl. rewrite Nat.sub_0_r. reflexivity.
  - rewrite seq_S, fold_left_app, IH by lia. simpl.
    destruct (lookup_lt_is_Some_2 (args cmd) i) as [a Ha]; [fold n; lia|].
    rewrite Ha, (take_S_r _ _ _ Ha). simpl.
    replace (n + 1 - i)%nat with (S (n + 1 - S i)) by lia.
    rewrite Nat.add_1_r. simpl. f_equal.
    rewrite map_app, <- app_assoc. simpl.
    assert (Hlen : length (map CStr (take i (args cmd))) = i).
    { rewrite length_map, length_take. fold n. lia. }
    rewrite <- Hlen at 1.
    rewrite <- (Nat.add_0_r (length _)), insert_app_r. reflexivity.
Qed.

Lemma build_argv_eq :
  build_argv cmd = CStr (file cmd) :: (map CStr (args cmd) ++ [NullPtr])%list.
Proof.
  unfold build_argv. fold n.
  replace (n + 2)%nat with (S (n + 1)) by lia. simpl replicate.
  simpl (<[0%nat:=_]> _).
  rewrite argv_loop_invariant by lia.
  rewrite take_ge by (unfold n; lia). rewrite Nat.add_1_r. simpl. f_equal.
  replace (S n - n)%nat with 1%nat by lia. simpl.
  assert (Hlen : length (map CStr (args cmd)) = n) by apply length_map.
  rewrite <- Hlen, <- (Nat.add_0_r (length _)), insert_app_r. reflexivity.
Qed.
End Argv.

(** ** Lemmas on runs *)

Lemma bind_returns {A B} (m : M A) (f : A -> M B) k a k' :
  m k = Returns a k' -> (m ≫= f) k = f a k'.
Proof. intros H. unfold mbind, M_bind. rewrite H. reflexivity. Qed.

Lemma logs_nil k : logs [] k = k.
Proof.
  destruct k. unfold logs, set_trace. simpl. rewrite app_nil_r. reflexivity.
Qed.

Lemma log_logs e es k : log e (logs es k) = logs (es ++ [e]) k.
Proof.
  unfold log, logs, set_trace, seen. simpl.
  rewrite map_app, app_assoc. reflexivity.
Qed.

Lemma logs_cons e es k : logs es (log e k) = logs (e :: es) k.
Proof.
  unfold log, logs, set_trace, seen. simpl.
  rewrite <- app_assoc. reflexivity.
Qed.

Lemma for_each_cout {A} (text : A -> list chunk) (l : list A) k :
  for_each l (fun a => cout (text a)) k
  = Returns tt (logs (map (fun a => EvWrite Stdout (text a)) l) k).
Proof.
  revert k. induction l as [|a l IH]; intros k; simpl.
  - rewrite logs_nil. reflexivity.
  - unfold mbind, M_bind, cout, write at 1. rewrite IH, logs_cons. reflexivity.
Qed.

Lemma calls_app k k' l :
  k_trace k' = (k_trace k ++ l)%list -> calls k k' = l.
Proof. intros H. unfold calls. rewrite H. apply drop_app_length. Qed.

Lemma exec_command_forks cmd k :
  exec_command cmd k =
  (pid ← fork;
   if (pid =? 0)%Z then
     debug in_child_text;;
     execvp (file cmd) (build_argv cmd);;
     errnum ← get_errno;
     cout (failed_text errnum);;
     exit (-1)
   else
     debug in_parent_text;;
     signal SIGINT SIG_IGN;;
     wait false;;
     signal SIGINT SIG_DFL;;
     debug after_wait_text) (logs (announce cmd (k_pid k)) k).
Proof.
  unfold exec_command.
  rewrite (bind_returns _ _ k tt (logs (announce cmd (k_pid k)) k));
    [reflexivity|].
  simpl.
  unfold mbind at 1, M_bind at 1, getpid.
  unfold mbind at 1, M_bind at 1, cout at 1, write.
  unfold mbind at 1, M_bind at 1. rewrite for_each_cout.
  unfold cout, write. rewrite logs_cons, log_logs. reflexivity.
Qed.

Lemma exec_command_in_child cmd k pid fs :
  next_fork k = (InChild pid, fs) ->
  exec_command cmd k =
    match k_exec k (file cmd) (build_argv cmd) with
    | None =>
        Replaced (file cmd) (build_argv cmd)
          (log (EvExecvp (file cmd) (build_argv cmd) None)
               (child_start cmd pid fs k))
    | Some e =>
        Exits (-1)
          (log (EvExit (-1))
             (log (EvWrite Stdout (failed_text e))
                (log (EvExecvp (file cmd) (build_argv cmd) (Some e))
                   (set_errno e (child_start cmd pid fs k)))))
    end.
Proof.
  intros H. rewrite exec_command_forks.
  unfold mbind at 1, M_bind at 1, fork.
  change (next_fork (logs _ k)) with (next_fork k). rewrite H.
  simpl Z.eqb. cbv iota.
  unfold mbind, M_bind, debug, getpid, cout, write, execvp, get_errno, exit.
  simpl.
  destruct (k_exec k (file cmd) (build_argv cmd)); reflexivity.
Qed.

Lemma parent_side_eq k2 :
  (debug in_parent_text;;
   signal SIGINT SIG_IGN;;
   wait false;;
   signal SIGINT SIG_DFL;;
   debug after_wait_text) k2 = wait_bracket k2.
Proof.
  unfold mbind, M_bind, debug, getpid, cout, write, signal, wait, wait_bracket.
  simpl.
  destruct (wait_on (k_sigchld_ign k2) (k_children k2)); reflexivity.
Qed.

Lemma exec_command_in_parent cmd k c fate rank fs :
  next_fork k = (InParent c fate rank, fs) ->
  exec_command cmd k = wait_bracket (parent_forked cmd c fate rank fs k).
Proof.
  intros H. rewrite exec_command_forks.
  unfold mbind at 1, M_bind at 1, fork.
  change (next_fork (logs _ k)) with (next_fork k). rewrite H.
  simpl Z.eqb. cbv iota. apply parent_side_eq.
Qed.

Lemma exec_command_fork_fails cmd k e fs :
  next_fork k = (ForkFails e, fs) ->
  exec_command cmd k = wait_bracket (fork_failed cmd e fs k).
Proof.
  intros H. rewrite exec_command_forks.
  unfold mbind at 1, M_bind at 1, fork.
  change (next_fork (logs _ k)) with (next_fork k). rewrite H.
  simpl Z.eqb. cbv iota. apply parent_side_eq.
Qed.

Arguments announce : simpl never.
Arguments build_argv : simpl never.

Lemma wait_bracket_trace k2 :
  k_trace (final (wait_bracket k2)) = (k_trace k2 ++ bracket_calls k2)%list.
Proof.
  unfold wait_bracket, bracket_calls.
  destruct (wait_on (k_sigchld_ign k2) (k_children k2)); simpl;
    rewrite <- ?app_assoc; reflexivity.
Qed.

Lemma wait_bracket_sigint k2 :
  k_sigint (final (wait_bracket k2)) =
  match wait_on (k_sigchld_ign k2) (k_children k2) with
  | WaitBlocks => SIG_IGN
  | _ => SIG_DFL
  end.
Proof.
  unfold wait_bracket.
  destruct (wait_on (k_sigchld_ign k2) (k_children k2)); reflexivity.
Qed.

Lemma wait_bracket_children k2 :
  k_children (final (wait_bracket k2)) =
  match wait_on (k_sigchld_ign k2) (k_children k2) with
  | WaitBlocks => k_children k2
  | WaitFails rest | WaitReaps _ _ rest => rest
  end.
Proof.
  unfold wait_bracket.
  destruct (wait_on (k_sigchld_ign k2) (k_children k2)); reflexivity.
Qed.

Lemma wait_bracket_outcome k2 :
  wait_bracket k2 =
  match wait_on (k_sigchld_ign k2) (k_children k2) with
  | WaitBlocks => Blocks (final (wait_bracket k2))
  | _ => Returns tt (final (wait_bracket k2))
  end.
Proof.
  unfold wait_bracket.
  destruct (wait_on (k_sigchld_ign k2) (k_children k2)); reflexivity.
Qed.

(** The calls of a launch on the parent's side. *)
Lemma parent_calls cmd k c fate rank fs :
  next_fork k = (InParent c fate rank, fs) ->
  calls k (final (exec_command cmd k)) =
  (map (seen k) (announce cmd (k_pid k))
   ++ Obs (EvFork (Z.pos c)) (k_sigint k)
          (map fst (insert_at rank (c, fate) (k_children k)))
   :: bracket_calls (parent_forked cmd c fate rank fs k))%list.
Proof.
  intros H. rewrite (exec_command_in_parent _ _ _ _ _ _ H).
  apply calls_app. rewrite wait_bracket_trace. simpl.
  rewrite <- !app_assoc. reflexivity.
Qed.

(** The calls of a launch in which [fork] fails. *)
Lemma fork_fails_calls cmd k e fs :
  next_fork k = (ForkFails e, fs) ->
  calls k (final (exec_command cmd k)) =
  (map (seen k) (announce cmd (k_pid k))
   ++ Obs (EvFork (-1)) (k_sigint k) (map fst (k_children k))
   :: bracket_calls (fork_failed cmd e fs k))%list.
Proof.
  intros H. rewrite (exec_command_fork_fails _ _ _ _ H).
  apply calls_app. rewrite wait_bracket_trace. simpl.
  rewrite <- !app_assoc. reflexivity.
Qed.

(** The calls of a launch on the child's side. *)
Lemma in_child_calls cmd k pid fs :
  next_fork k = (InChild pid, fs) ->
  calls k (final (exec_command cmd k)) =
  (map (seen k) (announce cmd (k_pid k)) ++ child_calls cmd pid k)%list.
Proof.
  intros H. rewrite (exec_command_in_child _ _ _ _ H).
  apply calls_app. unfold child_calls.
  destruct (k_exec k (file cmd) (build_argv cmd)); simpl;
    rewrite <- ?app_assoc; reflexivity.
Qed.

Lemma events_announce k cmd :
  map ev (map (seen k) (announce cmd (k_pid k))) = announce cmd (k_pid k).
Proof. rewrite map_map. apply map_id. Qed.

(** Before the fork, [exec_command] only writes to [cout]. *)
Lemma announce_writes cmd self e :
  In e (announce cmd self) -> exists text, e = EvWrite Stdout text.
Proof.
  unfold announce. intros [<-|H]; [eauto|].
  apply in_app_or in H as [H|[<-|[]]]; [|eauto].
  apply in_map_iff in H as (arg & <- & _). eauto.
Qed.

Lemma filter_writes (f : event -> bool) (l : list event) :
  (forall text, f (EvWrite Stdout text) = false) ->
  (forall e, In e l -> exists text, e = EvWrite Stdout text) ->
  List.filter f l = [].
Proof.
  intros Hf. induction l as [|e l IH]; intros Hl; [reflexivity|]. simpl.
  destruct (Hl e (or_introl eq_refl)) as [text ->]. rewrite Hf.
  apply IH. intros e' He'. apply Hl. right. exact He'.
Qed.

Lemma filter_announce (f : event -> bool) cmd self :
  (forall text, f (EvWrite Stdout text) = false) ->
  List.filter f (announce cmd self) = [].
Proof.
  intros Hf. apply filter_writes; [exact Hf|].
  intros e. apply announce_writes.
Qed.

(** Drop from a filtered log what [exec_command] wrote before the fork. *)
Ltac skip_announce := rewrite ?List.filter_app, !filter_announce by reflexivity.

(** Case analysis on the answer of [fork], with the matching closed form of
    [exec_command]. *)
Ltac on_each_side cmd k :=
  let Hf := fresh "Hf" in
  destruct (next_fork k) as [[?|?|? ? ?] ?] eqn:Hf;
  [ rewrite (exec_command_fork_fails cmd k _ _ Hf)
  | rewrite (exec_command_in_child cmd k _ _ Hf)
  | rewrite (exec_command_in_parent cmd k _ _ _ _ Hf) ].

(** ** The child's side of a launch *)

Lemma c_string_fixed (s : string) : c_string s = s <-> nul_free s.
Proof.
  unfold nul_free. induction s as [|ch s IH]; simpl.
  - split; [intros _ []|reflexivity].
  - destruct (Ascii.eqb ch Ascii.zero) eqn:E.
    + apply Ascii.eqb_eq in E. subst ch. split; [discriminate|].
      intros H. destruct H. left. reflexivity.
    + split.
      * intros [= H] [Hz|Hin]; [subst ch; discriminate E|].
        apply IH in H. exact (H Hin).
      * intros H. f_equal. apply IH. intros Hin. apply H. right. exact Hin.
Qed.

Lemma c_strings_fixed (l : list string) :
  map c_string l = l <-> Forall nul_free l.
Proof.
  induction l as [|s l IH]; simpl.
  - split; [intros _; apply List.Forall_nil|reflexivity].
  - split.
    + intros [= Hs Hl]. apply List.Forall_cons.
      * apply c_string_fixed. exact Hs.
      * apply IH. exact Hl.
    + intros H. inversion H as [|s' l' Hs Hl]; subst. f_equal.
      * apply c_string_fixed. exact Hs.
      * apply IH. exact Hl.
Qed.

Lemma argv_as_read_cells (l : list string) :
  argv_as_read (map CStr l ++ [NullPtr]) = map c_string l.
Proof. induction l as [|s l IH]; simpl; [reflexivity|]. f_equal. exact IH. Qed.

(** C7 as worded fails: for [echo] with an argument that holds a NUL byte
    (h, e, NUL, l, l, o) the vector that [execvp] reads from the array is
    [echo, he]: the argument is cut at the NUL byte. *)
Lemma argv_cut_at_nul : ~ argv_delivered echo_nul (in_child_11 found).
Proof.
  intros H. specialize (H "echo" (build_argv echo_nul) None).
  assert (E : argv_as_read (build_argv echo_nul) = ["echo"; "he"])
    by (vm_compute; reflexivity).
  rewrite E in H.
  assert (Hbad : ["echo"; "he"] = file echo_nul :: args echo_nul);
    [|discriminate Hbad].
  apply H. vm_compute. tauto.
Qed.

(** C7, amended. For a command with executable [e] and arguments
    [a_1 .. a_n] the child calls [execvp] once, on file [e], with the array
    [e.c_str(), a_1.c_str(), .., a_n.c_str(), nullptr]: the executable as
    argument zero, the arguments in their order, the terminator.  [execvp]
    reads each cell as a C string, so the vector delivered is each of
    [e, a_1, .., a_n] up to its first NUL byte; it is exactly
    [e, a_1, .., a_n] when, and only when, none of them holds a NUL
    byte. *)
Theorem execvp_argument_vector cmd k pid fs :
  next_fork k = (InChild pid, fs) ->
  let argv := CStr (file cmd) :: (map CStr (args cmd) ++ [NullPtr])%list in
  (exists err,
     List.filter is_execvp (events k (final (exec_command cmd k))) =
     [EvExecvp (file cmd) argv err])
  /\ argv_as_read argv = map c_string (file cmd :: args cmd)
  /\ (argv_as_read argv = file cmd :: args cmd
      <-> Forall nul_free (file cmd :: args cmd)).
Proof.
  intros H argv.
  assert (Hread : argv_as_read argv = map c_string (file cmd :: args cmd)).
  { unfold argv. simpl. f_equal. apply argv_as_read_cells. }
  split; [|split; [exact Hread|]].
  - unfold events. rewrite (in_child_calls _ _ _ _ H).
    rewrite map_app, events_announce. skip_announce.
    unfold child_calls, argv. rewrite <- build_argv_eq.
    destruct (k_exec k (file cmd) (build_argv cmd)) as [e|]; simpl; eauto.
  - rewrite Hread. apply c_strings_fixed.
Qed.

Lemma execvp_argument_vector_witness :
  let argv := [CStr "echo"; CStr "hello"; NullPtr] in
  next_fork (in_child_11 found) = (InChild 11, [])
  /\ (exists err,
        List.filter is_execvp
          (events (in_child_11 found)
             (final (exec_command echo_hello (in_child_11 found)))) =
        [EvExecvp "echo" argv err])
  /\ argv_as_read argv = map c_string ["echo"; "hello"]
  /\ (argv_as_read argv = ["echo"; "hello"]
      <-> Forall nul_free ["echo"; "hello"]).
Proof.
  intros argv. split; [reflexivity|].
  apply (execvp_argument_vector echo_hello (in_child_11 found) 11 []).
  reflexivity.
Defined.

(** C5 as worded fails: when [execvp] fails in the child for the command
    [nonexistent_xyz] (ENOENT), nothing at all is written to the error
    stream. *)
Lemma exec_failure_not_on_stderr :
  ~ exec_failure_reported Stderr ENOENT (in_child_11 missing)
      (exec_command nonexistent_xyz (in_child_11 missing)).
Proof.
  intros [(text & Hin & _) _].
  assert (E : List.filter is_stderr
                (events (in_child_11 missing)
                   (final (exec_command nonexistent_xyz (in_child_11 missing))))
              = []) by (vm_compute; reflexivity).
  assert (Hf : In (EvWrite Stderr text) []); [|destruct Hf].
  rewrite <- E. apply filter_In. split; [exact Hin|reflexivity].
Qed.

(** C5, amended. When [execvp] fails in the child with errno [e], the child
    writes the diagnostic with [strerror(e)] to its standard output
    ([cout]), then calls [exit(-1)], a status the parent sees as non-zero;
    it never returns: after the fork it runs the child's code only, which
    ends in [exit]. *)
Theorem exec_failure_in_child cmd k pid fs e :
  next_fork k = (InChild pid, fs) ->
  k_exec k (file cmd) (build_argv cmd) = Some e ->
  let o := exec_command cmd k in
  exec_failure_reported Stdout e k o
  /\ o = Exits (-1) (final o)
  /\ events k (final o) =
     (announce cmd (k_pid k)
      ++ [EvFork 0;
          EvWrite Stdout (in_child_text (Z.pos pid));
          EvExecvp (file cmd) (build_argv cmd) (Some e);
          EvWrite Stdout [Str "execvp failed with error: "; StrError e; Endl];
          EvExit (-1)])%list.
Proof.
  intros H He o.
  assert (Hev : events k (final o) =
     (announce cmd (k_pid k)
      ++ [EvFork 0;
          EvWrite Stdout (in_child_text (Z.pos pid));
          EvExecvp (file cmd) (build_argv cmd) (Some e);
          EvWrite Stdout [Str "execvp failed with error: "; StrError e; Endl];
          EvExit (-1)])%list).
  { unfold events, o. rewrite (in_child_calls _ _ _ _ H).
    rewrite map_app, events_announce. unfold child_calls. rewrite He.
    reflexivity. }
  assert (Ho : o = Exits (-1) (final o)).
  { unfold o. rewrite (exec_command_in_child _ _ _ _ H), He. reflexivity. }
  split; [|split]; [|exact Ho|exact Hev].
  split.
  - exists [Str "execvp failed with error: "; StrError e; Endl]. split.
    + rewrite Hev. apply in_or_app. right. simpl. tauto.
    + simpl. tauto.
  - exists (-1). split; [exact Ho|]. discriminate.
Qed.

Lemma exec_failure_in_child_witness :
  let k := in_child_11 missing in
  let o := exec_command nonexistent_xyz k in
  next_fork k = (InChild 11, [])
  /\ k_exec k "nonexistent_xyz" (build_argv nonexistent_xyz) = Some ENOENT
  /\ exec_failure_reported Stdout ENOENT k o
  /\ o = Exits (-1) (final o)
  /\ events k (final o) =
     (announce nonexistent_xyz 10
      ++ [EvFork 0;
          EvWrite Stdout (in_child_text 11);
          EvExecvp "nonexistent_xyz" (build_argv nonexistent_xyz) (Some ENOENT);
          EvWrite Stdout [Str "execvp failed with error: "; StrError ENOENT; Endl];
          EvExit (-1)])%list.
Proof.
  split; [reflexivity|]. split; [reflexivity|].
  apply (exec_failure_in_child nonexistent_xyz (in_child_11 missing) 11 []).
  - reflexivity.
  - reflexivity.
Defined.

Lemma child_side_failure cmd c k e :
  k_exec k (file cmd) (build_argv cmd) = Some e ->
  child_side cmd c k = Exits (-1) (final (child_side cmd c k)).
Proof.
  intros He. unfold child_side.
  rewrite (exec_command_in_child _ _ c []) by reflexivity.
  simpl k_exec. rewrite He. reflexivity.
Qed.

Lemma child_side_replaced cmd c k :
  k_exec k (file cmd) (build_argv cmd) = None ->
  child_side cmd c k =
  Replaced (file cmd) (build_argv cmd) (final (child_side cmd c k)).
Proof.
  intros He. unfold child_side.
  rewrite (exec_command_in_child _ _ c []) by reflexivity.
  simpl k_exec. rewrite He. reflexivity.
Qed.

(** The parent's side does not look at what [execvp] would do. *)
Lemma parent_ignores_exec cmd c fate rank exec' k :
  let o := exec_command cmd (set_forks [InParent c fate rank] k) in
  let o' :=
    exec_command cmd (set_forks [InParent c fate rank] (set_exec exec' k)) in
  return_value o = return_value o'
  /\ calls k (final o) = calls (set_exec exec' k) (final o').
Proof.
  intros o o'. unfold o, o'.
  rewrite !(exec_command_in_parent _ _ c fate rank []) by reflexivity.
  split.
  - rewrite (wait_bracket_outcome (parent_forked _ _ _ _ _ _)).
    rewrite (wait_bracket_outcome
               (parent_forked _ _ _ _ _ (set_forks _ (set_exec _ _)))).
    simpl k_sigchld_ign. simpl k_children.
    destruct (wait_on _ _); reflexivity.
  - unfold calls. rewrite !wait_bracket_trace. simpl k_trace.
    rewrite <- !app_assoc, !drop_app_length. reflexivity.
Qed.

(** C10. When [execvp] fails the child ends by [exit(-1)], so the status its
    parent can observe is exactly 255, the low eight bits of -1; hence what
    the parent observes is the same as for a program that was started and
    itself exited with status 255. *)
Theorem exec_failure_status_255 cmd c k e rank :
  k_exec k (file cmd) (build_argv cmd) = Some e ->
  (exists k', child_side cmd c k = Exits (-1) k')
  /\ (forall prog, termination prog (child_side cmd c k) = Some (Exited 255))
  /\ (forall prog exec',
        exec' (file cmd) (build_argv cmd) = None ->
        let k' := set_exec exec' k in
        let after_failure := parent_side cmd c prog rank k in
        let after_exit_255 :=
          parent_side cmd c (Some (Exited (wexitstatus 255))) rank k' in
        return_value after_failure = return_value after_exit_255
        /\ calls k (final after_failure) = calls k' (final after_exit_255)).
Proof.
  intros He.
  assert (Hterm : forall prog,
             termination prog (child_side cmd c k) = Some (Exited 255)).
  { intros prog. rewrite (child_side_failure _ _ _ _ He). reflexivity. }
  split; [|split].
  - eexists. apply (child_side_failure _ _ _ _ He).
  - exact Hterm.
  - intros prog exec' He' k' o o'. unfold o, o', parent_side.
    rewrite Hterm. unfold k'.
    rewrite (child_side_replaced cmd c (set_exec exec' k)) by exact He'.
    simpl termination. change (wexitstatus 255) with 255.
    apply parent_ignores_exec.
Qed.

Lemma exec_failure_status_255_witness :
  let k := boot 10 SIG_DFL missing [] "" in
  k_exec k "nonexistent_xyz" (build_argv nonexistent_xyz) = Some ENOENT
  /\ (exists k', child_side nonexistent_xyz 11 k = Exits (-1) k')
  /\ (forall prog,
        termination prog (child_side nonexistent_xyz 11 k) = Some (Exited 255))
  /\ (forall prog exec',
        exec' "nonexistent_xyz" (build_argv nonexistent_xyz) = None ->
        let k' := set_exec exec' k in
        let after_failure := parent_side nonexistent_xyz 11 prog 0 k in
        let after_exit_255 :=
          parent_side nonexistent_xyz 11 (Some (Exited (wexitstatus 255))) 0 k'
        in
        return_value after_failure = return_value after_exit_255
        /\ calls k (final after_failure) = calls k' (final after_exit_255)).
Proof.
  intros k. split; [reflexivity|].
  apply (exec_failure_status_255 nonexistent_xyz 11 k ENOENT 0).
  reflexivity.
Defined.

(** ** The parent's side of a launch *)

Lemma insert_at_only (rank : nat) (x : child) : insert_at rank x [] = [x].
Proof. unfold insert_at. rewrite take_nil, drop_nil. reflexivity. Qed.

Lemma insert_at_In (rank : nat) (x : child) cs : In x (insert_at rank x cs).
Proof. unfold insert_at. apply in_or_app. right. left. reflexivity. Qed.

Lemma insert_at_not_nil (rank : nat) (x : child) cs :
  insert_at rank x cs <> [].
Proof.
  intros H. pose proof (insert_at_In rank x cs) as Hin.
  rewrite H in Hin. destruct Hin.
Qed.

(** With SIGCHLD not ignored and a child at hand, [wait] reports the first
    child that terminates. *)
Lemma wait_on_reap cs :
  cs <> [] ->
  wait_on false cs =
  match reap cs with
  | Some (c, st, rest) => WaitReaps c st rest
  | None => WaitBlocks
  end.
Proof. destruct cs; [congruence|reflexivity]. Qed.

Lemma parent_events cmd k c fate rank fs :
  next_fork k = (InParent c fate rank, fs) ->
  events k (final (exec_command cmd k)) =
  (announce cmd (k_pid k)
   ++ EvFork (Z.pos c)
   :: map ev (bracket_calls (parent_forked cmd c fate rank fs k)))%list.
Proof.
  intros H. unfold events. rewrite (parent_calls _ _ _ _ _ _ H).
  rewrite map_app, events_announce. reflexivity.
Qed.

Lemma fork_fails_events cmd k e fs :
  next_fork k = (ForkFails e, fs) ->
  events k (final (exec_command cmd k)) =
  (announce cmd (k_pid k)
   ++ EvFork (-1) :: map ev (bracket_calls (fork_failed cmd e fs k)))%list.
Proof.
  intros H. unfold events. rewrite (fork_fails_calls _ _ _ _ H).
  rewrite map_app, events_announce. reflexivity.
Qed.

(** C1 as worded fails: for the command [true] launched as child 11 of the
    shell, no reading of the value that [exec_command] returns gives the
    termination status of the program. *)
Lemma exit_status_not_returned :
  ~ returns_status true_cmd 11 0 (shell []).
Proof.
  intros [decode H].
  destruct (H (Exited 0)) as ([] & _ & H0).
  destruct (H (Exited 1)) as ([] & _ & H1).
  congruence.
Qed.

Lemma bracket_no_fork k2 :
  List.filter is_fork (map ev (bracket_calls k2)) = [].
Proof.
  unfold bracket_calls.
  destruct (wait_on (k_sigchld_ign k2) (k_children k2)); reflexivity.
Qed.

(** Every call of [exec_command] makes one [fork], and one only, in
    whichever process it goes on and whatever the other calls answer. *)
Lemma one_fork_per_call cmd k :
  length (List.filter is_fork (events k (final (exec_command cmd k)))) = 1%nat.
Proof.
  destruct (next_fork k) as [[e|pid|c fate rank] fs] eqn:Hf.
  - rewrite (fork_fails_events _ _ _ _ Hf). skip_announce.
    change (List.filter is_fork (EvFork ?r :: ?l))
      with (EvFork r :: List.filter is_fork l).
    rewrite bracket_no_fork. reflexivity.
  - unfold events. rewrite (in_child_calls _ _ _ _ Hf).
    rewrite map_app, events_announce. skip_announce. unfold child_calls.
    destruct (k_exec k (file cmd) (build_argv cmd)); reflexivity.
  - rewrite (parent_events _ _ _ _ _ _ Hf). skip_announce.
    change (List.filter is_fork (EvFork ?r :: ?l))
      with (EvFork r :: List.filter is_fork l).
    rewrite bracket_no_fork. reflexivity.
Qed.

(** C1, amended. For a command whose executable can be started, launched as
    the only unwaited child of the shell and terminating with status [st],
    [exec_command] (a [void] function) returns nothing to its caller, so
    that no outcome of the launch reaches it.  When SIGCHLD is not ignored
    the kernel reports the status [st] of the launched child to [wait],
    which drops it ([wait(nullptr)]); when SIGCHLD is ignored [wait] fails
    once the child has terminated, and no status is reported at all.  Either
    way the child is no longer unwaited on return.  Every call, of any
    command in any state, makes exactly one [fork], so that one child is
    created per call, none when [fork] fails. *)
Theorem launch_returns_nothing cmd c st rank k :
  k_exec k (file cmd) (build_argv cmd) = None ->
  k_children k = [] ->
  let o := parent_side cmd c (Some st) rank k in
  o = Returns tt (final o)
  /\ events k (final o) =
     (announce cmd (k_pid k)
      ++ [EvFork (Z.pos c);
          EvWrite Stdout (in_parent_text (k_pid k));
          EvSignal SIGINT SIG_IGN;
          (if k_sigchld_ign k then EvWait (-1) None
           else EvWait (Z.pos c) (Some st));
          EvSignal SIGINT SIG_DFL;
          EvWrite Stdout (after_wait_text (k_pid k))])%list
  /\ k_children (final o) = []
  /\ (forall cmd0 k0,
        length (List.filter is_fork
                  (events k0 (final (exec_command cmd0 k0)))) = 1%nat).
Proof.
  intros He Hc o.
  assert (Ho : o = exec_command cmd (set_forks [InParent c (Some st) rank] k)).
  { unfold o, parent_side. rewrite (child_side_replaced _ _ _ He). reflexivity. }
  set (k1 := set_forks [InParent c (Some st) rank] k) in Ho.
  assert (Hf : next_fork k1 = (InParent c (Some st) rank, [])) by reflexivity.
  assert (Hw : wait_on (k_sigchld_ign (parent_forked cmd c (Some st) rank [] k1))
                 (k_children (parent_forked cmd c (Some st) rank [] k1))
               = if k_sigchld_ign k then WaitFails [] else WaitReaps c st []).
  { simpl. rewrite Hc, insert_at_only. destruct (k_sigchld_ign k); reflexivity. }
  split; [|split; [|split]].
  - rewrite Ho, (exec_command_in_parent _ _ _ _ _ _ Hf).
    rewrite wait_bracket_outcome at 1. rewrite Hw.
    destruct (k_sigchld_ign k); reflexivity.
  - rewrite Ho. change (events k ?x) with (events k1 x).
    rewrite (parent_events _ _ _ _ _ _ Hf). unfold bracket_calls.
    rewrite Hw. destruct (k_sigchld_ign k); reflexivity.
  - rewrite Ho, (exec_command_in_parent _ _ _ _ _ _ Hf).
    rewrite wait_bracket_children, Hw.
    destruct (k_sigchld_ign k); reflexivity.
  - intros cmd0 k0. apply one_fork_per_call.
Qed.

Lemma launch_returns_nothing_witness :
  let k := shell [] in
  let o := parent_side true_cmd 11 (Some (Exited 0)) 0 k in
  k_exec k "true" (build_argv true_cmd) = None
  /\ k_children k = []
  /\ o = Returns tt (final o)
  /\ events k (final o) =
     (announce true_cmd 10
      ++ [EvFork 11;
          EvWrite Stdout (in_parent_text 10);
          EvSignal SIGINT SIG_IGN;
          EvWait 11 (Some (Exited 0));
          EvSignal SIGINT SIG_DFL;
          EvWrite Stdout (after_wait_text 10)])%list
  /\ k_children (final o) = []
  /\ (forall cmd0 k0,
        length (List.filter is_fork
                  (events k0 (final (exec_command cmd0 k0)))) = 1%nat).
Proof.
  intros k o. split; [reflexivity|]. split; [reflexivity|].
  apply (launch_returns_nothing true_cmd 11 (Exited 0) 0 (shell []));
    reflexivity.
Defined.

(** C3 as worded fails: the shell holds an older child 7 that terminates
    first; [wait] returns for it, and [exec_command] takes that for the end
    of the child 11 it launched. *)
Lemma wait_reports_other_child :
  ~ waits_for_launched 11 shell_with_child_7
      (exec_command sleep_5 shell_with_child_7).
Proof.
  intros H. specialize (H 7 (Some (Exited 0))).
  assert (H7 : 7 = Z.pos 11); [|discriminate H7].
  apply H. vm_compute. tauto.
Qed.

(** C3, amended. [wait(nullptr)] waits for any child of the caller: the
    launcher blocks until the first of the unwaited children of the shell
    terminates (the launched one among them), and returns then, whichever
    child that was; it blocks for ever when none terminates.  When the
    launched child is the only unwaited child of the shell, that is the
    launched child. *)
Theorem wait_reports_first_child cmd k c fate rank fs :
  next_fork k = (InParent c fate rank, fs) ->
  k_sigchld_ign k = false ->
  let o := exec_command cmd k in
  match reap (insert_at rank (c, fate) (k_children k)) with
  | Some (d, st, rest) =>
      o = Returns tt (final o)
      /\ List.filter is_wait (events k (final o)) = [EvWait (Z.pos d) (Some st)]
      /\ k_children (final o) = rest
  | None =>
      o = Blocks (final o)
      /\ List.filter is_wait (events k (final o)) = []
      /\ In c (map fst (k_children (final o)))
  end
  /\ (k_children k = [] ->
      reap (insert_at rank (c, fate) (k_children k)) =
      match fate with Some st => Some (c, st, []) | None => None end).
Proof.
  intros Hf Hs o. split.
  - assert (Hw : wait_on (k_sigchld_ign (parent_forked cmd c fate rank fs k))
                   (k_children (parent_forked cmd c fate rank fs k))
                 = match reap (insert_at rank (c, fate) (k_children k)) with
                   | Some (d, st, rest) => WaitReaps d st rest
                   | None => WaitBlocks
                   end).
    { simpl. rewrite Hs. apply wait_on_reap, insert_at_not_nil. }
    assert (Hfil : List.filter is_wait (events k (final o)) =
                   List.filter is_wait
                     (map ev (bracket_calls (parent_forked cmd c fate rank fs k)))).
    { unfold o. rewrite (parent_events _ _ _ _ _ _ Hf). skip_announce.
      reflexivity. }
    unfold o in *. rewrite Hfil. unfold bracket_calls.
    rewrite (exec_command_in_parent _ _ _ _ _ _ Hf).
    rewrite wait_bracket_children.
    rewrite (wait_bracket_outcome (parent_forked _ _ _ _ _ _)).
    rewrite Hw.
    destruct (reap (insert_at rank (c, fate) (k_children k)))
      as [[[d st] rest]|]; simpl.
    + auto.
    + split; [reflexivity|]. split; [reflexivity|].
      apply in_map_iff. exists (c, fate). split; [reflexivity|].
      apply insert_at_In.
  - intros Hc. rewrite Hc, insert_at_only. destruct fate; reflexivity.
Qed.

Lemma wait_reports_first_child_witness :
  let k := shell_launch in
  let o := exec_command sleep_5 k in
  next_fork k = (InParent 11 (Some (Exited 0)) 0, [])
  /\ k_sigchld_ign k = false
  /\ match reap (insert_at 0 (11%positive, Some (Exited 0)) (k_children k)) with
     | Some (d, st, rest) =>
         o = Returns tt (final o)
         /\ List.filter is_wait (events k (final o))
            = [EvWait (Z.pos d) (Some st)]
         /\ k_children (final o) = rest
     | None =>
         o = Blocks (final o)
         /\ List.filter is_wait (events k (final o)) = []
         /\ In 11%positive (map fst (k_children (final o)))
     end
  /\ (k_children k = [] ->
      reap (insert_at 0 (11%positive, Some (Exited 0)) (k_children k)) =
      Some (11%positive, Exited 0, [])).
Proof.
  intros k o. split; [reflexivity|]. split; [reflexivity|].
  apply (wait_reports_first_child sleep_5 shell_launch 11
           (Some (Exited 0)) 0 []); reflexivity.
Defined.

(** C2 as worded fails: the shell holds an older child 7 that terminates
    first; [wait] returns for it, SIGINT is set back to the default and the
    launcher returns while the child 11 it launched is still unwaited. *)
Lemma sigint_default_while_child_unwaited :
  ~ sigint_discipline 11 shell_with_child_7
      (exec_command sleep_5 shell_with_child_7).
Proof.
  intros (_ & _ & _ & H).
  destruct H as (_ & _ & H); [vm_compute; reflexivity|].
  apply H. vm_compute. tauto.
Qed.

Lemma in_seen_announce k cmd x :
  In x (map (seen k) (announce cmd (k_pid k))) ->
  disp x = k_sigint k /\ exists text, ev x = EvWrite Stdout text.
Proof.
  intros H. apply in_map_iff in H as (e & <- & He).
  split; [reflexivity|]. apply (announce_writes _ _ _ He).
Qed.

(** C2, amended. In every launch whose [fork] succeeds, the parent leaves
    the SIGINT disposition alone up to and including the fork (the child
    inherits the value from before the launch), sets it to ignore after the
    fork, when the child is unwaited, keeps it so throughout [wait], and sets
    it to the default as soon as [wait] has returned, before the launcher
    returns; it is not a saved value that is put back.  When the disposition
    was the default before and the launched child is the only unwaited child
    of the shell, this is the discipline of the specification. *)
Theorem sigint_ignored_around_wait cmd k c fate rank fs :
  next_fork k = (InParent c fate rank, fs) ->
  let o := exec_command cmd k in
  let u := map fst (insert_at rank (c, fate) (k_children k)) in
  In c u
  /\ (exists tail,
        calls k (final o) =
        (map (seen k) (announce cmd (k_pid k))
         ++ Obs (EvFork (Z.pos c)) (k_sigint k) u
         :: Obs (EvWrite Stdout (in_parent_text (k_pid k))) (k_sigint k) u
         :: Obs (EvSignal SIGINT SIG_IGN) SIG_IGN u
         :: tail)%list
        /\ ((o = Blocks (final o) /\ tail = []
             /\ k_sigint (final o) = SIG_IGN)
            \/ (exists r st,
                  let u' := map fst (k_children (final o)) in
                  o = Returns tt (final o)
                  /\ tail =
                     [Obs (EvWait r st) SIG_IGN u';
                      Obs (EvSignal SIGINT SIG_DFL) SIG_DFL u';
                      Obs (EvWrite Stdout (after_wait_text (k_pid k)))
                          SIG_DFL u']
                  /\ k_sigint (final o) = SIG_DFL)))
  /\ (k_sigint k = SIG_DFL -> k_children k = [] -> sigint_discipline c k o).
Proof.
  intros Hf o u.
  assert (Hu : In c u).
  { unfold u. apply in_map_iff. exists (c, fate). split; [reflexivity|].
    apply insert_at_In. }
  assert (Hcalls := parent_calls cmd _ _ _ _ _ Hf). fold o in Hcalls.
  assert (Ho := exec_command_in_parent cmd _ _ _ _ _ Hf). fold o in Ho.
  set (k2 := parent_forked cmd c fate rank fs k) in *.
  assert (Hsig := wait_bracket_sigint k2).
  assert (Hch := wait_bracket_children k2).
  assert (Hout := wait_bracket_outcome k2).
  rewrite <- Ho in Hsig, Hch, Hout.
  unfold bracket_calls in Hcalls.
  change (k_children k2) with (insert_at rank (c, fate) (k_children k)) in *.
  change (k_sigchld_ign k2) with (k_sigchld_ign k) in *.
  change (k_pid k2) with (k_pid k) in *.
  change (k_sigint k2) with (k_sigint k) in *.
  fold u in Hcalls.
  split; [exact Hu|]. split.
  - eexists. split; [exact Hcalls|].
    destruct (wait_on (k_sigchld_ign k) (insert_at rank (c, fate) (k_children k)))
      as [|rest|d st rest].
    + left. auto.
    + right. exists (-1), None. simpl. rewrite Hch. auto.
    + right. exists (Z.pos d), (Some st). simpl. rewrite Hch. auto.
  - intros Hdfl Hc. unfold sigint_discipline.
    assert (Hone : insert_at rank (c, fate) (k_children k) = [(c, fate)]).
    { rewrite Hc. apply insert_at_only. }
    assert (Hret : return_value o = Some tt -> k_children (final o) = []).
    { rewrite Hch, Hout, Hone.
      destruct (k_sigchld_ign k); destruct fate; simpl; intros Hr;
        first [reflexivity | discriminate Hr]. }
    split; [exact Hdfl|]. split; [|split].
    + intros x Hx Hfork. rewrite Hcalls in Hx.
      apply in_app_or in Hx as [Hx|Hx].
      * apply in_seen_announce in Hx as [Hd _]. exact Hd.
      * destruct Hx as [<-|[<-|[<-|Hx]]]; try reflexivity; try discriminate.
        destruct (wait_on _ _); simpl in Hx;
          repeat (destruct Hx as [<-|Hx]; [discriminate Hfork|]);
          destruct Hx.
    + intros x Hx Hign. rewrite Hcalls in Hx.
      apply in_app_or in Hx as [Hx|Hx].
      * apply in_seen_announce in Hx as [Hd _]. congruence.
      * destruct Hx as [<-|[<-|[<-|Hx]]]; simpl in Hign; try congruence.
        { left. exact Hu. }
        destruct (wait_on _ _); simpl in Hx.
        -- destruct Hx.
        -- destruct Hx as [<-|[<-|[<-|[]]]]; simpl in Hign;
             try discriminate; right; reflexivity.
        -- destruct Hx as [<-|[<-|[<-|[]]]]; simpl in Hign;
             try discriminate; right; reflexivity.
    + intros Hr. rewrite (Hret Hr). rewrite Hout in Hr. rewrite Hsig.
      destruct (wait_on _ _); simpl in Hr; try discriminate;
        (split; [reflexivity|]; split; [congruence|]; intros []).
Qed.

Lemma sigint_ignored_around_wait_witness :
  let k := shell_launch in
  let o := exec_command sleep_5 k in
  next_fork k = (InParent 11 (Some (Exited 0)) 0, [])
  /\ k_sigint k = SIG_DFL
  /\ k_children k = []
  /\ k_sigint (final o) = SIG_DFL
  /\ sigint_discipline 11 k o.
Proof.
  intros k o.
  destruct (sigint_ignored_around_wait sleep_5 shell_launch 11
              (Some (Exited 0)) 0 [] eq_refl) as (_ & _ & H).
  repeat (split; [reflexivity|]).
  apply H; reflexivity.
Defined.

(** C4 as worded fails: when the kernel refuses to fork, [exec_command]
    returns normally, no error reaches the caller. *)
Lemma fork_failure_swallowed :
  ~ fork_failure_surfaced shell_no_fork (exec_command echo_hello shell_no_fork).
Proof.
  intros [H _].
  assert (E : is_throw (exec_command echo_hello shell_no_fork) = false)
    by (vm_compute; reflexivity).
  congruence.
Qed.

(** C4, amended. When [fork] fails in a shell without unwaited children, no
    process is created and no child code is run; [exec_command], a [void]
    function that throws nothing, returns normally and writes nothing to the
    error stream: the failure is not reported to the caller. *)
Theorem fork_failure_not_reported cmd k e fs :
  next_fork k = (ForkFails e, fs) ->
  k_children k = [] ->
  let o := exec_command cmd k in
  o = Returns tt (final o)
  /\ is_throw o = false
  /\ List.filter is_fork (events k (final o)) = [EvFork (-1)]
  /\ List.filter is_execvp (events k (final o)) = []
  /\ List.filter is_stderr (events k (final o)) = []
  /\ k_children (final o) = [].
Proof.
  intros Hf Hc o.
  assert (Hw : forall b, wait_on b [] = WaitFails []) by (intros []; reflexivity).
  assert (Ho : o = Returns tt (final o)).
  { unfold o. rewrite (exec_command_fork_fails _ _ _ _ Hf).
    rewrite wait_bracket_outcome at 1. simpl. rewrite Hc, Hw. reflexivity. }
  assert (Hev : events k (final o) =
                (announce cmd (k_pid k)
                 ++ [EvFork (-1);
                     EvWrite Stdout (in_parent_text (k_pid k));
                     EvSignal SIGINT SIG_IGN;
                     EvWait (-1) None;
                     EvSignal SIGINT SIG_DFL;
                     EvWrite Stdout (after_wait_text (k_pid k))])%list).
  { unfold o. rewrite (fork_fails_events _ _ _ _ Hf). unfold bracket_calls.
    simpl. rewrite Hc, Hw. reflexivity. }
  split; [exact Ho|]. split; [rewrite Ho; reflexivity|].
  rewrite Hev. skip_announce.
  repeat (split; [reflexivity|]).
  unfold o. rewrite (exec_command_fork_fails _ _ _ _ Hf).
  rewrite wait_bracket_children. simpl. rewrite Hc, Hw. reflexivity.
Qed.

Lemma fork_failure_not_reported_witness :
  let k := shell_no_fork in
  let o := exec_command echo_hello k in
  next_fork k = (ForkFails EAGAIN, [])
  /\ k_children k = []
  /\ o = Returns tt (final o)
  /\ is_throw o = false
  /\ List.filter is_fork (events k (final o)) = [EvFork (-1)]
  /\ List.filter is_execvp (events k (final o)) = []
  /\ List.filter is_stderr (events k (final o)) = []
  /\ k_children (final o) = [].
Proof.
  intros k o. split; [reflexivity|]. split; [reflexivity|].
  apply (fork_failure_not_reported echo_hello shell_no_fork EAGAIN []);
    reflexivity.
Defined.

(** C6 as worded fails: the shell has no child ([fork] failed), so [wait]
    fails with ECHILD; [exec_command] returns normally all the same, and no
    error reaches the caller. *)
Lemma wait_failure_swallowed :
  ~ wait_failure_surfaced shell_no_fork (exec_command true_cmd shell_no_fork).
Proof.
  intros H. destruct H as [_ H].
  - vm_compute. tauto.
  - assert (E : is_throw (exec_command true_cmd shell_no_fork) = false)
      by (vm_compute; reflexivity).
    congruence.
Qed.

(** A failed [wait] on the parent's side: what follows it. *)
Lemma bracket_wait_failure cmd k k2 (forked : event) :
  exec_command cmd k = wait_bracket k2 ->
  events k (final (exec_command cmd k)) =
    (announce cmd (k_pid k) ++ forked :: map ev (bracket_calls k2))%list ->
  is_fork forked = true ->
  k_pid k2 = k_pid k ->
  let o := exec_command cmd k in
  In (EvWait (-1) None) (events k (final o)) ->
  o = Returns tt (final o)
  /\ is_throw o = false
  /\ k_sigint (final o) = SIG_DFL
  /\ (exists pre,
        events k (final o) =
        (pre ++ [EvWait (-1) None;
                 EvSignal SIGINT SIG_DFL;
                 EvWrite Stdout (after_wait_text (k_pid k))])%list)
  /\ List.filter is_stderr (events k (final o)) = [].
Proof.
  intros Ho Hev Hfork Hpid o Hin. unfold o in *. clear o.
  assert (Hw : exists rest,
             wait_on (k_sigchld_ign k2) (k_children k2) = WaitFails rest).
  { rewrite Hev in Hin. apply in_app_or in Hin as [Hin|Hin].
    - apply announce_writes in Hin as [text Hin]. discriminate Hin.
    - destruct Hin as [->|Hin]; [discriminate Hfork|].
      unfold bracket_calls in Hin.
      destruct (wait_on (k_sigchld_ign k2) (k_children k2)); simpl in Hin;
        [| eauto |];
        repeat (destruct Hin as [Hin|Hin]; [discriminate Hin|]);
        destruct Hin. }
  destruct Hw as [rest Hw].
  assert (Hout := wait_bracket_outcome k2). rewrite Hw in Hout.
  assert (Hsig := wait_bracket_sigint k2). rewrite Hw in Hsig.
  rewrite <- Ho in Hout, Hsig.
  split; [exact Hout|]. split; [rewrite Hout; reflexivity|].
  split; [exact Hsig|].
  unfold bracket_calls in Hev. rewrite Hw, Hpid in Hev. cbn [map ev] in Hev.
  split.
  - exists (announce cmd (k_pid k)
            ++ [forked; EvWrite Stdout (in_parent_text (k_pid k));
                EvSignal SIGINT SIG_IGN])%list.
    rewrite Hev, <- app_assoc. reflexivity.
  - rewrite Hev. skip_announce.
    destruct forked; try discriminate Hfork. reflexivity.
Qed.

(** C6, amended. If [wait] fails, the SIGINT disposition is still set to
    the default before [exec_command] returns, but the failure is dropped:
    the return value of [wait] is not looked at, [exec_command] returns
    normally, as after a successful wait, and writes nothing to the error
    stream. *)
Theorem wait_failure_ignored cmd k :
  let o := exec_command cmd k in
  In (EvWait (-1) None) (events k (final o)) ->
  o = Returns tt (final o)
  /\ is_throw o = false
  /\ k_sigint (final o) = SIG_DFL
  /\ (exists pre,
        events k (final o) =
        (pre ++ [EvWait (-1) None;
                 EvSignal SIGINT SIG_DFL;
                 EvWrite Stdout (after_wait_text (k_pid k))])%list)
  /\ List.filter is_stderr (events k (final o)) = [].
Proof.
  destruct (next_fork k) as [[e|pid|c fate rank] fs] eqn:Hf.
  - apply (bracket_wait_failure cmd k (fork_failed cmd e fs k) (EvFork (-1)));
      [apply (exec_command_fork_fails _ _ _ _ Hf)
      |apply (fork_fails_events _ _ _ _ Hf)|reflexivity|reflexivity].
  - intros o Hin. exfalso. unfold o, events in Hin.
    rewrite (in_child_calls _ _ _ _ Hf), map_app, events_announce in Hin.
    apply in_app_or in Hin as [Hin|Hin].
    + apply announce_writes in Hin as [text Hin]. discriminate Hin.
    + unfold child_calls in Hin.
      destruct (k_exec k (file cmd) (build_argv cmd)); simpl in Hin;
        repeat (destruct Hin as [Hin|Hin]; [discriminate Hin|]);
        destruct Hin.
  - apply (bracket_wait_failure cmd k (parent_forked cmd c fate rank fs k)
             (EvFork (Z.pos c)));
      [apply (exec_command_in_parent _ _ _ _ _ _ Hf)
      |apply (parent_events _ _ _ _ _ _ Hf)|reflexivity|reflexivity].
Qed.

Lemma wait_failure_ignored_witness :
  let k := shell_no_fork in
  let o := exec_command true_cmd k in
  In (EvWait (-1) None) (events k (final o))
  /\ o = Returns tt (final o)
  /\ is_throw o = false
  /\ k_sigint (final o) = SIG_DFL
  /\ (exists pre,
        events k (final o) =
        (pre ++ [EvWait (-1) None;
                 EvSignal SIGINT SIG_DFL;
                 EvWrite Stdout (after_wait_text 10)])%list)
  /\ List.filter is_stderr (events k (final o)) = [].
Proof.
  intros k o.
  assert (H : In (EvWait (-1) None) (events k (final o))).
  { vm_compute. tauto. }
  split; [exact H|].
  apply (wait_failure_ignored true_cmd shell_no_fork H).
Defined.

(** A [wait] that fails after a successful [fork]: with SIGCHLD ignored the
    terminated child is not kept for [wait] to report. *)
Example wait_fails_after_fork :
  let k := shell_sigchld_ignored in
  let o := exec_command true_cmd k in
  In (EvFork 11) (events k (final o))
  /\ In (EvWait (-1) None) (events k (final o))
  /\ o = Returns tt (final o).
Proof.
  split; [vm_compute; tauto|]. split; [vm_compute; tauto|].
  vm_compute. reflexivity.
Qed.

(** ** The prompt loop *)

Lemma getline_eq k :
  getline k = Returns (fst (read_line (k_stdin k))) (final (getline k)).
Proof.
  unfold getline.
  destruct (read_line (k_stdin k)) as [line [rest|]]; reflexivity.
Qed.

Lemma repl_loop_eq k :
  repl_loop k =
  match parse_input (fst (read_line (k_stdin k))) with
  | inl what => Throws what (after_getline k)
  | inr cmd =>
      if String.eqb (file cmd) "exit"
      then Returns false
             (log (EvWrite Stdout [Str "exiting!"; Endl]) (after_getline k))
      else (exec_command cmd;; mret true) (after_getline k)
  end.
Proof.
  unfold repl_loop, after_getline.
  unfold mbind at 1, M_bind at 1, cout at 1, write at 1.
  unfold mbind at 1, M_bind at 1. rewrite getline_eq.
  change (k_stdin (log _ k)) with (k_stdin k).
  destruct (parse_input (fst (read_line (k_stdin k)))) as [what|cmd].
  - reflexivity.
  - unfold mbind at 1, M_bind at 1. simpl.
    destruct (String.eqb (file cmd) "exit"); reflexivity.
Qed.

(** [exec_command] throws nothing, in whichever process it goes on. *)
Lemma exec_command_no_throw cmd k : is_throw (exec_command cmd k) = false.
Proof.
  on_each_side cmd k; try rewrite wait_bracket_outcome;
    [destruct (wait_on _ _) | destruct (k_exec _ _ _) | destruct (wait_on _ _)];
    reflexivity.
Qed.

Lemma after_getline_trace k :
  k_trace (after_getline k) =
  (k_trace k ++ [seen k (EvWrite Stdout [Str "> "]);
                 seen k (EvGetline (fst (read_line (k_stdin k))))])%list.
Proof.
  unfold after_getline, getline. simpl.
  destruct (read_line (k_stdin k)) as [line [rest|]]; simpl;
    rewrite <- app_assoc; reflexivity.
Qed.

Lemma seen_eq k e : seen k e = Obs e (k_sigint k) (map fst (k_children k)).
Proof. reflexivity. Qed.

Lemma after_getline_seen k e : seen (after_getline k) e = seen k e.
Proof.
  unfold after_getline, getline. simpl.
  destruct (read_line (k_stdin k)) as [line [rest|]]; reflexivity.
Qed.

(** C9 as worded fails: on an empty line followed by the line [ls], [main]
    writes the prompt once and never again, whatever the number of turns
    allowed. *)
Lemma empty_line_aborts_loop : ~ loop_survives shell_empty_line.
Proof.
  intros H.
  specialize (H "Empty command" (final (repl_loop shell_empty_line))).
  destruct H as [fuel Hn]; [vm_compute; reflexivity|vm_compute; reflexivity|].
  assert (E : (length
                 (List.filter is_prompt
                    (events shell_empty_line
                       (final (main fuel shell_empty_line)))) <= 1)%nat).
  { destruct fuel; vm_compute; lia. }
  lia.
Qed.

(** C9, amended. A line that does not parse ends the prompt loop: the
    exception of [parse_input] is caught outside the loop, in [main], which
    writes "Fatal error: " and the message to [cerr] and returns, leaving
    the rest of the input unread.  What goes wrong inside a launch does not
    end it: [exec_command] throws nothing, and once it has returned the loop
    goes on to its next turn. *)
Theorem prompt_loop_and_errors fuel k :
  k_eof k = false ->
  let line := fst (read_line (k_stdin k)) in
  (forall what, parse_input line = inl what ->
     let o := main (S fuel) k in
     o = Returns 0 (final o)
     /\ events k (final o) =
        [EvWrite Stdout [Str "> "]; EvGetline line;
         EvWrite Stderr [Str "Fatal error: "; Str what; Endl]]
     /\ k_stdin (final o) = default "" (snd (read_line (k_stdin k))))
  /\ (forall cmd, parse_input line = inr cmd ->
      String.eqb (file cmd) "exit" = false ->
      is_throw (exec_command cmd (after_getline k)) = false
      /\ forall k2, exec_command cmd (after_getline k) = Returns tt k2 ->
           main_loop (S fuel) k = main_loop fuel k2).
Proof.
  intros Heof line. split.
  - intros what Hp o.
    assert (Hl : main_loop (S fuel) k = Throws what (after_getline k)).
    { simpl. unfold mbind at 1, M_bind at 1, eof. rewrite Heof.
      unfold mbind, M_bind. rewrite repl_loop_eq. fold line. rewrite Hp.
      reflexivity. }
    assert (Ho : o = Returns 0
                       (log (EvWrite Stderr
                               [Str "Fatal error: "; Str what; Endl])
                            (after_getline k))).
    { unfold o, main, mbind, M_bind, try_catch. rewrite Hl. reflexivity. }
    rewrite Ho. split; [reflexivity|]. split.
    + unfold events.
      rewrite (calls_app k _
                 [seen k (EvWrite Stdout [Str "> "]);
                  seen k (EvGetline line);
                  seen k (EvWrite Stderr [Str "Fatal error: "; Str what; Endl])]);
        [reflexivity|].
      unfold log at 1. rewrite <- seen_eq, after_getline_seen. simpl k_trace.
      rewrite after_getline_trace, <- app_assoc. reflexivity.
    + simpl. unfold after_getline, getline. simpl.
      destruct (read_line (k_stdin k)) as [l [rest|]]; reflexivity.
  - intros cmd Hp Hexit. split; [apply exec_command_no_throw|].
    intros k2 Hk2. simpl. unfold mbind at 1, M_bind at 1, eof. rewrite Heof.
    unfold mbind at 1, M_bind at 1. rewrite repl_loop_eq. fold line.
    rewrite Hp, Hexit. unfold mbind at 1, M_bind at 1. rewrite Hk2.
    reflexivity.
Qed.

Lemma prompt_loop_and_errors_witness :
  (k_eof shell_empty_line = false
   /\ parse_input (fst (read_line (k_stdin shell_empty_line)))
      = inl "Empty command"
   /\ let o := main 3 shell_empty_line in
      o = Returns 0 (final o)
      /\ events shell_empty_line (final o) =
         [EvWrite Stdout [Str "> "]; EvGetline "";
          EvWrite Stderr [Str "Fatal error: "; Str "Empty command"; Endl]]
      /\ k_stdin (final o) = "ls" +:+ nl)
  /\ (k_eof shell_bad_command = false
      /\ parse_input (fst (read_line (k_stdin shell_bad_command)))
         = inr nonexistent_xyz
      /\ is_throw (exec_command nonexistent_xyz (after_getline shell_bad_command))
         = false
      /\ main_loop 3 shell_bad_command =
         main_loop 2
           (final (exec_command nonexistent_xyz
                     (after_getline shell_bad_command)))).
Proof.
  destruct (prompt_loop_and_errors 2 shell_empty_line eq_refl) as [H1 _].
  destruct (prompt_loop_and_errors 2 shell_bad_command eq_refl) as [_ H2].
  split.
  - split; [reflexivity|]. split; [vm_compute; reflexivity|].
    apply (H1 "Empty command"). vm_compute; reflexivity.
  - split; [reflexivity|]. split; [vm_compute; reflexivity|].
    destruct (H2 nonexistent_xyz) as [H3 H4];
      [vm_compute; reflexivity|vm_compute; reflexivity|].
    split; [exact H3|]. apply H4. vm_compute; reflexivity.
Defined.

(** The session of the README, in the shell and in the child it forks, call
    by call. *)
Example readme_session :
  let o := main 3 shell_session in
  let child :=
    child_side (Command "not_exist" []) 1072167 (after_getline shell_session) in
  return_value o = Some 0
  /\ events shell_session (final o) =
     [EvWrite Stdout [Str "> "];
      EvGetline "not_exist";
      EvWrite Stdout
        [Str "["; Num 1071662;
         Str ("] command is:" +:+ nl +:+ tab +:+ "file = ");
         Str "not_exist"; Str (nl +:+ tab +:+ "args = ")];
      EvWrite Stdout [Endl];
      EvFork 1072167;
      EvWrite Stdout [Str "["; Num 1071662; Str "] in parent after fork()"; Endl];
      EvSignal SIGINT SIG_IGN;
      EvWait 1072167 (Some (Exited 255));
      EvSignal SIGINT SIG_DFL;
      EvWrite Stdout [Str "["; Num 1071662; Str "] after wait()"; Endl];
      EvWrite Stdout [Str "> "];
      EvGetline "exit";
      EvWrite Stdout [Str "exiting!"; Endl]]
  /\ events (after_getline shell_session) (final child) =
     [EvWrite Stdout
        [Str "["; Num 1071662;
         Str ("] command is:" +:+ nl +:+ tab +:+ "file = ");
         Str "not_exist"; Str (nl +:+ tab +:+ "args = ")];
      EvWrite Stdout [Endl];
      EvFork 0;
      EvWrite Stdout [Str "["; Num 1072167; Str "] in child after fork()"; Endl];
      EvExecvp "not_exist" [CStr "not_exist"; NullPtr] (Some ENOENT);
      EvWrite Stdout [Str "execvp failed with error: "; StrError ENOENT; Endl];
      EvExit (-1)]
  /\ termination None child = Some (Exited 255).
Proof. vm_compute. repeat split; reflexivity. Qed.

(** ** Enough fuel for the loop of [main]

    These are facts of the model, in which the input is the shell's own:
    they bound the turns of the modelled loop, so that the bound [fuel] is
    never what ends a run. *)

Lemma read_line_shorter (s line rest : string) :
  read_line s = (line, Some rest) ->
  (String.length rest < String.length s)%nat.
Proof.
  revert line. induction s as [|c s IH]; intros line H; simpl in H.
  - discriminate H.
  - destruct (Ascii.eqb c newline).
    + injection H as _ <-. simpl. lia.
    + destruct (read_line s) as [l r]. injection H as _ ->.
      specialize (IH l eq_refl). simpl. lia.
Qed.

Lemma after_getline_turns k :
  k_eof k = false -> (turns_left (after_getline k) < turns_left k)%nat.
Proof.
  intros Heof. unfold turns_left, after_getline, getline. rewrite Heof. simpl.
  destruct (read_line (k_stdin k)) as [line [rest|]] eqn:E; simpl.
  - rewrite Heof. apply read_line_shorter in E. lia.
  - lia.
Qed.

(** In the model a launch leaves [cin] as it is: the input is the shell's
    own (see the head of the file). *)
Lemma exec_command_turns cmd k k' :
  exec_command cmd k = Returns tt k' -> turns_left k' = turns_left k.
Proof.
  on_each_side cmd k; unfold wait_bracket;
    [destruct (wait_on _ _) | destruct (k_exec _ _ _) | destruct (wait_on _ _)];
    intros [= <-]; reflexivity.
Qed.

Lemma exec_command_no_fuel cmd k : is_out_of_fuel (exec_command cmd k) = false.
Proof.
  on_each_side cmd k; try rewrite wait_bracket_outcome;
    [destruct (wait_on _ _) | destruct (k_exec _ _ _) | destruct (wait_on _ _)];
    reflexivity.
Qed.

(** With one turn per character of input and one more, the modelled loop
    does not use up its bound (it may still block in [wait]). *)
Lemma main_loop_enough_fuel fuel k :
  (turns_left k < fuel)%nat -> is_out_of_fuel (main_loop fuel k) = false.
Proof.
  revert k. induction fuel as [|fuel IH]; intros k Hk; [lia|].
  simpl. unfold mbind at 1, M_bind at 1, eof.
  destruct (k_eof k) eqn:Heof; [reflexivity|].
  unfold mbind at 1, M_bind at 1. rewrite repl_loop_eq.
  pose proof (after_getline_turns k Heof) as Hlt.
  destruct (parse_input _) as [what|cmd]; [reflexivity|].
  destruct (String.eqb (file cmd) "exit"); [reflexivity|].
  unfold mbind at 1, M_bind at 1.
  destruct (exec_command cmd (after_getline k)) as [[] k2| | | | |] eqn:E;
    try reflexivity.
  - simpl. apply IH. rewrite (exec_command_turns _ _ _ E). lia.
  - pose proof (exec_command_no_fuel cmd (after_getline k)) as Hn.
    rewrite E in Hn. discriminate Hn.
Qed.

Lemma main_enough_fuel fuel k :
  (turns_left k < fuel)%nat -> is_out_of_fuel (main fuel k) = false.
Proof.
  intros Hk. pose proof (main_loop_enough_fuel fuel k Hk) as H.
  unfold main, mbind, M_bind, try_catch.
  destruct (main_loop fuel k); try reflexivity; discriminate H.
Qed.

(** ** The tokenizer, part by part *)

Lemma chars_append (s1 s2 : string) :
  chars (s1 +:+ s2) = (chars s1 ++ chars s2)%list.
Proof. induction s1 as [|c s1 IH]; simpl; [reflexivity|]. f_equal. exact IH. Qed.

Lemma chars_substring (n m : nat) (s : string) :
  chars (substring n m s) = take m (drop n (chars s)).
Proof.
  revert n m. induction s as [|c s IH]; intros [|n] [|m]; simpl;
    try reflexivity.
  - f_equal. apply (IH 0%nat m).
  - apply (IH n 0%nat).
  - apply (IH n (S m)).
Qed.

Lemma get_chars (i : nat) (s : string) : String.get i s = chars s !! i.
Proof.
  revert i. induction s as [|c s IH]; intros [|i]; simpl; try reflexivity.
  apply IH.
Qed.

Lemma chars_length (s : string) : length (chars s) = String.length s.
Proof. induction s as [|c s IH]; simpl; [reflexivity|]. f_equal. exact IH. Qed.

Lemma chars_inj (s1 s2 : string) : chars s1 = chars s2 -> s1 = s2.
Proof.
  intros H. rewrite <- (string_of_list_ascii_of_string s1).
  rewrite <- (string_of_list_ascii_of_string s2). unfold chars in H.
  rewrite H. reflexivity.
Qed.

Lemma split_loop_invariant (input : string) :
  split_invariant input (String.length input)
    (for_range (String.length input) (parse_step input) ([], 0%nat)).
Proof.
  apply (for_range_ind (split_invariant input)).
  - simpl. split; [lia|]. split; [reflexivity|]. split; [constructor|].
    intros j Hj. lia.
  - intros i [parts last_index] Hi (Hle & Hsp & Hno & Hgap). unfold parse_step.
    rewrite get_chars.
    destruct (chars input !! i) as [ch|] eqn:Hget.
    + destruct (Ascii.eqb ch " ") eqn:Hch.
      * apply Ascii.eqb_eq in Hch. subst ch.
        assert (Hpart : chars (substr input last_index (i - last_index))
                        = take (i - last_index) (drop last_index (chars input))).
        { apply chars_substring. }
        split; [lia|]. split; [|split].
        -- unfold spaced in *. rewrite flat_map_app, Hsp. simpl.
           rewrite app_nil_r, Hpart, app_assoc, take_take_drop.
           replace (last_index + (i - last_index))%nat with i by lia.
           rewrite Nat.add_1_r. symmetry. apply take_S_r. exact Hget.
        -- apply Forall_app. split; [exact Hno|]. constructor; [|constructor].
           rewrite Hpart. intros Hin.
           apply list_elem_of_In, elem_of_take in Hin as (j & Hj & Hlt).
           rewrite lookup_drop in Hj. apply (Hgap (last_index + j)%nat); [lia|].
           exact Hj.
        -- intros j Hj. lia.
      * split; [lia|]. split; [exact Hsp|]. split; [exact Hno|].
        intros j Hj. destruct (Nat.eq_dec j i) as [->|Hne].
        -- rewrite Hget. intros [= ->]. discriminate Hch.
        -- apply Hgap. lia.
    + split; [lia|]. split; [exact Hsp|]. split; [exact Hno|].
      intros j Hj. destruct (Nat.eq_dec j i) as [->|Hne].
      * rewrite Hget. discriminate.
      * apply Hgap. lia.
Qed.

Lemma concat_cons (x : string) (xs : list string) :
  xs <> [] ->
  String.concat " " (x :: xs) = x +:+ " " +:+ String.concat " " xs.
Proof. destruct xs; [congruence|reflexivity]. Qed.

Lemma chars_concat_snoc (parts : list string) (t : string) :
  chars (String.concat " " (parts ++ [t])) = (spaced parts ++ chars t)%list.
Proof.
  induction parts as [|p ps IH]; [reflexivity|].
  change ((p :: ps) ++ [t])%list with (p :: (ps ++ [t]))%list.
  rewrite concat_cons by (destruct ps; discriminate).
  rewrite !chars_append, IH. unfold spaced. simpl.
  rewrite <- !app_assoc. reflexivity.
Qed.

Lemma chars_concat_spaced (parts : list string) :
  parts <> [] ->
  (chars (String.concat " " parts) ++ [" "%char])%list = spaced parts.
Proof.
  induction parts as [|p ps IH]; [congruence|]. intros _.
  destruct ps as [|q ps].
  - unfold spaced. simpl. rewrite app_nil_r. reflexivity.
  - rewrite concat_cons by discriminate.
    rewrite !chars_append, <- !app_assoc, IH by discriminate.
    unfold spaced. simpl. rewrite <- !app_assoc. reflexivity.
Qed.

Lemma ends_with_space_snoc (input : string) (l : list ascii) :
  chars input = (l ++ [" "%char])%list -> ends_with_space input = true.
Proof.
  intros H. unfold ends_with_space. rewrite get_chars, <- chars_length, H.
  rewrite length_app, Nat.add_sub. simpl.
  rewrite lookup_app_r, Nat.sub_diag by lia. reflexivity.
Qed.

Lemma ends_with_space_false (input : string) :
  (forall j, (String.length input - 1 <= j < String.length input)%nat ->
             chars input !! j <> Some " "%char) ->
  ends_with_space input = false.
Proof.
  intros H. unfold ends_with_space. rewrite get_chars.
  destruct (chars input !! (String.length input - 1)%nat) as [ch|] eqn:E;
    [|reflexivity].
  destruct (Ascii.eqb ch " ") eqn:Hch; [|reflexivity].
  apply Ascii.eqb_eq in Hch. subst ch. exfalso.
  apply lookup_lt_Some in E as Hlt. rewrite chars_length in Hlt.
  apply (H (String.length input - 1)%nat); [lia|exact E].
Qed.

(** What [parse_input] cuts a line into: no part holds a space, and the
    parts joined by single spaces, with the space that ended the line if
    there was one, are the line. *)
Lemma parse_parts_spec (input : string) :
  Forall (fun p => ~ In " "%char (chars p)) (parse_parts input)
  /\ String.concat " " (parse_parts input)
     +:+ (if ends_with_space input then " " else "") = input.
Proof.
  unfold parse_parts.
  pose proof (split_loop_invariant input) as Hinv.
  destruct (for_range _ _ _) as [parts last_index].
  destruct Hinv as (Hle & Hsp & Hno & Hgap).
  destruct (last_index <? String.length input)%nat eqn:Hlt.
  - apply Nat.ltb_lt in Hlt.
    assert (Htail : chars (substr_from input last_index)
                    = drop last_index (chars input)).
    { unfold substr_from. rewrite chars_substring. apply take_ge.
      rewrite length_drop, chars_length. lia. }
    split.
    + apply Forall_app. split; [exact Hno|]. constructor; [|constructor].
      rewrite Htail. intros Hin.
      apply list_elem_of_In, list_elem_of_lookup in Hin as (j & Hj).
      rewrite lookup_drop in Hj.
      apply lookup_lt_Some in Hj as Hjlt. rewrite chars_length in Hjlt.
      apply (Hgap (last_index + j)%nat); [lia|exact Hj].
    + rewrite ends_with_space_false by (intros j Hj; apply Hgap; lia).
      apply chars_inj. rewrite chars_append, chars_concat_snoc, Hsp, Htail.
      simpl. rewrite app_nil_r. apply take_drop.
  - apply Nat.ltb_ge in Hlt. split; [exact Hno|].
    assert (Hall : spaced parts = chars input).
    { rewrite Hsp. apply take_ge. rewrite chars_length. lia. }
    destruct parts as [|p ps].
    + assert (Hempty : input = "").
      { apply chars_inj. rewrite <- Hall. reflexivity. }
      subst input. reflexivity.
    + rewrite <- chars_concat_spaced in Hall by discriminate.
      rewrite (ends_with_space_snoc input _ (eq_sym Hall)).
      apply chars_inj. rewrite chars_append. exact Hall.
Qed.

Lemma parse_input_parts (input : string) (cmd : command) :
  parse_input input = inr cmd -> parse_parts input = file cmd :: args cmd.
Proof.
  unfold parse_input. destruct (parse_parts input) as [|p ps];
    [discriminate|]. intros [= <-]. reflexivity.
Qed.

(** X3. No part of the command that [parse_input] returns, executable or
    argument, holds a space: the line is cut at every space. *)
Theorem parse_input_no_space (input : string) (cmd : command) :
  parse_input input = inr cmd ->
  Forall (fun p => ~ In " "%char (chars p)) (file cmd :: args cmd).
Proof.
  intros H. rewrite <- (parse_input_parts _ _ H).
  apply (parse_parts_spec input).
Qed.

Lemma parse_input_no_space_witness :
  parse_input "a  b " = inr (Command "a" [""; "b"])
  /\ Forall (fun p => ~ In " "%char (chars p)) ["a"; ""; "b"].
Proof.
  assert (H : parse_input "a  b " = inr (Command "a" [""; "b"]))
    by (vm_compute; reflexivity).
  split; [exact H|]. apply (parse_input_no_space "a  b " _ H).
Defined.

(** X4. Round trip of the tokenizer: the executable and the arguments that
    [parse_input] returns, joined by single spaces, give back the line, up
    to one space at its end, which is dropped.  So empty arguments stand for
    doubled spaces, and nothing else of the line is lost. *)
Theorem parse_input_round_trip (input : string) (cmd : command) :
  parse_input input = inr cmd ->
  String.concat " " (file cmd :: args cmd)
  +:+ (if ends_with_space input then " " else "") = input.
Proof.
  intros H. rewrite <- (parse_input_parts _ _ H).
  apply (parse_parts_spec input).
Qed.

Lemma parse_input_round_trip_witness :
  parse_input "a  b " = inr (Command "a" [""; "b"])
  /\ String.concat " " ["a"; ""; "b"]
     +:+ (if ends_with_space "a  b " then " " else "") = "a  b ".
Proof.
  assert (H : parse_input "a  b " = inr (Command "a" [""; "b"]))
    by (vm_compute; reflexivity).
  split; [exact H|]. apply (parse_input_round_trip "a  b " _ H).
Defined.

(** X1. [parse_input] throws on the empty line and on no other line, and
    what it throws is the string "Empty command". *)
Theorem parse_input_throws_empty_command (input what : string) :
  parse_input input = inl what <-> input = "" /\ what = "Empty command".
Proof.
  split.
  - intros H. split.
    + apply parse_input_throws_iff. exists what. exact H.
    + unfold parse_input in H. destruct (parse_parts input);
        [injection H as <-; reflexivity|discriminate H].
  - intros [-> ->]. reflexivity.
Qed.

Lemma parse_input_empty_file_witness :
  parse_input " ls" = inr (Command "" ["ls"])
  /\ (file (Command "" ["ls"]) = "" <-> String.get 0 " ls" = Some " "%char).
Proof.
  assert (H : parse_input " ls" = inr (Command "" ["ls"]))
    by (vm_compute; reflexivity).
  split; [exact H|]. apply (parse_input_empty_file " ls" _ H).
Defined.

Lemma filter_no_space (p : string) :
  ~ In " "%char (chars p) -> List.filter is_space (chars p) = [].
Proof.
  induction (chars p) as [|ch l IH]; intros H; [reflexivity|]. simpl.
  destruct (is_space ch) eqn:E.
  - apply Ascii.eqb_eq in E. subst ch. destruct H. left. reflexivity.
  - apply IH. intros Hin. apply H. right. exact Hin.
Qed.

Lemma count_spaced (parts : list string) :
  Forall (fun p => ~ In " "%char (chars p)) parts ->
  length (List.filter is_space (spaced parts)) = length parts.
Proof.
  induction 1 as [|p ps Hp _ IH]; [reflexivity|].
  unfold spaced in *. simpl. rewrite !List.filter_app, !length_app.
  rewrite (filter_no_space p Hp), IH. reflexivity.
Qed.

(** X5. Every space of the line makes one more argument, but for a space
    at the very end of the line: the number of arguments is the number of
    spaces, less one when the line ends with a space. *)
Theorem parse_input_args_count (input : string) (cmd : command) :
  parse_input input = inr cmd ->
  length (args cmd) =
  (count_spaces input - (if ends_with_space input then 1 else 0))%nat.
Proof.
  intros H. pose proof (parse_input_parts _ _ H) as Hparts.
  destruct (parse_parts_spec input) as [Hno Hjoin]. rewrite Hparts in *.
  assert (Hcount : length (List.filter is_space
                             (chars (String.concat " " (file cmd :: args cmd))))
                   = length (args cmd)).
  { pose proof (count_spaced _ Hno) as Hc.
    rewrite <- chars_concat_spaced in Hc by discriminate.
    rewrite List.filter_app, length_app in Hc.
    change (length (List.filter is_space [" "%char])) with 1%nat in Hc.
    change (length (file cmd :: args cmd)) with (S (length (args cmd))) in Hc.
    lia. }
  unfold count_spaces. rewrite <- Hjoin at 1.
  rewrite chars_append, List.filter_app, length_app, Hcount.
  destruct (ends_with_space input); simpl; lia.
Qed.

Lemma parse_input_args_count_witness :
  parse_input "a  b " = inr (Command "a" [""; "b"])
  /\ length [""; "b"] =
     (count_spaces "a  b " - (if ends_with_space "a  b " then 1 else 0))%nat.
Proof.
  assert (H : parse_input "a  b " = inr (Command "a" [""; "b"]))
    by (vm_compute; reflexivity).
  split; [exact H|]. apply (parse_input_args_count "a  b " _ H).
Defined.

(** ** More on the launcher *)

(** X6. In the child, when [execvp] can start the file, [exec_command]
    ends in the new program image: it has written its two debug lines to
    [cout], the second with the pid of the child, has called neither
    [signal] nor [wait], and hands over the SIGINT disposition that the
    shell had before the launch. *)
Theorem exec_success_in_child cmd k pid fs :
  next_fork k = (InChild pid, fs) ->
  k_exec k (file cmd) (build_argv cmd) = None ->
  let o := exec_command cmd k in
  o = Replaced (file cmd) (build_argv cmd) (final o)
  /\ events k (final o) =
     (announce cmd (k_pid k)
      ++ [EvFork 0;
          EvWrite Stdout
            [Str "["; Num (Z.pos pid); Str "] in child after fork()"; Endl];
          EvExecvp (file cmd) (build_argv cmd) None])%list
  /\ k_sigint (final o) = k_sigint k
  /\ k_pid (final o) = Z.pos pid.
Proof.
  intros Hf He o. unfold o, events.
  rewrite (in_child_calls _ _ _ _ Hf), map_app, events_announce.
  unfold child_calls. rewrite (exec_command_in_child _ _ _ _ Hf), He.
  repeat split; reflexivity.
Qed.

Lemma exec_success_in_child_witness :
  let k := in_child_11 found in
  let o := exec_command echo_hello k in
  next_fork k = (InChild 11, [])
  /\ k_exec k "echo" (build_argv echo_hello) = None
  /\ o = Replaced "echo" (build_argv echo_hello) (final o)
  /\ events k (final o) =
     (announce echo_hello 10
      ++ [EvFork 0;
          EvWrite Stdout [Str "["; Num 11; Str "] in child after fork()"; Endl];
          EvExecvp "echo" (build_argv echo_hello) None])%list
  /\ k_sigint (final o) = SIG_DFL
  /\ k_pid (final o) = 11.
Proof.
  intros k o. split; [reflexivity|]. split; [reflexivity|].
  apply (exec_success_in_child echo_hello (in_child_11 found) 11 []);
    reflexivity.
Defined.

(** X7. Whenever [exec_command] returns, the SIGINT disposition is the
    default, whatever it was before the call: a disposition that the shell
    inherited, such as ignore, does not outlive the first launch.  And it
    returns in the parent only. *)
Theorem exec_command_resets_sigint cmd k k' :
  exec_command cmd k = Returns tt k' ->
  k_sigint k' = SIG_DFL /\ forall pid, fst (next_fork k) <> InChild pid.
Proof.
  on_each_side cmd k; unfold wait_bracket;
    [destruct (wait_on _ _) | destruct (k_exec _ _ _) | destruct (wait_on _ _)];
    intros [= <-]; (split; [reflexivity|intros p; discriminate]).
Qed.

Lemma exec_command_resets_sigint_witness :
  let k := shell_sigint_ignored in
  let k' := final (exec_command true_cmd k) in
  k_sigint k = SIG_IGN
  /\ exec_command true_cmd k = Returns tt k'
  /\ k_sigint k' = SIG_DFL
  /\ forall pid, fst (next_fork k) <> InChild pid.
Proof.
  intros k k'.
  assert (H : exec_command true_cmd k = Returns tt k')
    by (vm_compute; reflexivity).
  split; [reflexivity|]. split; [exact H|].
  apply (exec_command_resets_sigint true_cmd k k' H).
Defined.

(** ** More on the prompt step and on [main] *)

Lemma exec_then_true cmd k1 :
  (exec_command cmd;; mret true) k1 =
  match exec_command cmd k1 with
  | Returns _ k2 => Returns true k2
  | Throws e k2 => Throws e k2
  | Exits s k2 => Exits s k2
  | Replaced p v k2 => Replaced p v k2
  | Blocks k2 => Blocks k2
  | OutOfFuel k2 => OutOfFuel k2
  end.
Proof. reflexivity. Qed.

(** X8. [repl_loop] answers "stop" exactly when the first part of the line
    is the word exit, whatever follows it on the line: it then writes
    "exiting!" and launches nothing.  A space before the word, or any other
    first part, does not stop the shell. *)
Theorem repl_loop_stops_on_exit k k' :
  let line := fst (read_line (k_stdin k)) in
  (repl_loop k = Returns false k' <->
   exists rest, parse_input line = inr (Command "exit" rest)
                /\ k' = log (EvWrite Stdout [Str "exiting!"; Endl])
                            (after_getline k))
  /\ (repl_loop k = Returns false k' ->
      events k k' = [EvWrite Stdout [Str "> "]; EvGetline line;
                     EvWrite Stdout [Str "exiting!"; Endl]]).
Proof.
  intros line.
  assert (Hiff : repl_loop k = Returns false k' <->
                 exists rest, parse_input line = inr (Command "exit" rest)
                   /\ k' = log (EvWrite Stdout [Str "exiting!"; Endl])
                               (after_getline k)).
  { rewrite repl_loop_eq. fold line. split.
    - destruct (parse_input line) as [what|[f a]]; [discriminate|]. simpl.
      destruct (String.eqb f "exit") eqn:E.
      + apply String.eqb_eq in E. subst f. intros [= <-]. eauto.
      + rewrite exec_then_true. destruct (exec_command _ _); discriminate.
    - intros (rest & -> & ->). reflexivity. }
  split; [exact Hiff|].
  intros H. apply Hiff in H as (rest & _ & ->).
  unfold events.
  rewrite (calls_app k _
             [seen k (EvWrite Stdout [Str "> "]);
              seen k (EvGetline line);
              seen k (EvWrite Stdout [Str "exiting!"; Endl])]);
    [reflexivity|].
  unfold log at 1. rewrite <- seen_eq, after_getline_seen. simpl k_trace.
  rewrite after_getline_trace, <- app_assoc. reflexivity.
Qed.

(** X9. [repl_loop] throws exactly when the line read is empty, and then
    "Empty command"; nothing that happens in the launch makes it throw.  A
    line of spaces is not empty: it is launched, with an empty executable. *)
Theorem repl_loop_throws_on_empty_line k what k' :
  repl_loop k = Throws what k' <->
  fst (read_line (k_stdin k)) = ""
  /\ what = "Empty command" /\ k' = after_getline k.
Proof.
  rewrite repl_loop_eq. split.
  - destruct (parse_input _) as [w|cmd] eqn:Hp.
    + intros [= <- <-].
      assert (Hline : fst (read_line (k_stdin k)) = "").
      { apply parse_input_throws_iff. eauto. }
      rewrite Hline in Hp. injection Hp as <-. auto.
    + destruct (String.eqb (file cmd) "exit"); [discriminate|].
      rewrite exec_then_true.
      pose proof (exec_command_no_throw cmd (after_getline k)) as Hn.
      destruct (exec_command _ _); try discriminate.
  - intros (-> & -> & ->). reflexivity.
Qed.

Lemma main_loop_throws fuel k what :
  k_eof k = false ->
  parse_input (fst (read_line (k_stdin k))) = inl what ->
  main (S fuel) k =
  Returns 0 (log (EvWrite Stderr [Str "Fatal error: "; Str what; Endl])
               (after_getline k)).
Proof.
  intros Heof Hp. unfold main, mbind, M_bind, try_catch. simpl main_loop.
  unfold mbind, M_bind, eof. rewrite Heof, repl_loop_eq, Hp. reflexivity.
Qed.

(** X10. When the input is used up and its end has not been met yet (the
    last line ended with a newline, or there was no input at all), the shell
    prompts once more, reads an empty line, and [main] ends with
    "Fatal error: Empty command" on [cerr]; it still returns 0. *)
Theorem main_input_used_up fuel k :
  k_eof k = false ->
  k_stdin k = "" ->
  let o := main (S fuel) k in
  o = Returns 0 (final o)
  /\ events k (final o) =
     [EvWrite Stdout [Str "> "]; EvGetline "";
      EvWrite Stderr [Str "Fatal error: "; Str "Empty command"; Endl]]
  /\ k_eof (final o) = true.
Proof.
  intros Heof Hin o.
  assert (Hline : fst (read_line (k_stdin k)) = "") by (rewrite Hin; reflexivity).
  assert (Ho : o = Returns 0
                     (log (EvWrite Stderr
                             [Str "Fatal error: "; Str "Empty command"; Endl])
                          (after_getline k))).
  { apply main_loop_throws; [exact Heof|]. rewrite Hline. reflexivity. }
  rewrite Ho. split; [reflexivity|]. split.
  - unfold events.
    rewrite (calls_app k _
               [seen k (EvWrite Stdout [Str "> "]);
                seen k (EvGetline "");
                seen k (EvWrite Stderr
                          [Str "Fatal error: "; Str "Empty command"; Endl])]);
      [reflexivity|].
    unfold log at 1. rewrite <- seen_eq, after_getline_seen. simpl k_trace.
    rewrite after_getline_trace, Hline, <- app_assoc. reflexivity.
  - simpl. unfold after_getline, getline. simpl. rewrite Hin. reflexivity.
Qed.

Lemma main_input_used_up_witness :
  let k := shell_no_input in
  let o := main 1 k in
  k_eof k = false
  /\ k_stdin k = ""
  /\ o = Returns 0 (final o)
  /\ events k (final o) =
     [EvWrite Stdout [Str "> "]; EvGetline "";
      EvWrite Stderr [Str "Fatal error: "; Str "Empty command"; Endl]]
  /\ k_eof (final o) = true.
Proof.
  intros k o. split; [reflexivity|]. split; [reflexivity|].
  apply (main_input_used_up 0 shell_no_input); reflexivity.
Defined.

(** X11. When the last line has no newline behind it, [getline] meets the
    end of the input while reading it: the command of that line is launched,
    and once it has returned the loop ends without another prompt and
    without the fatal error; [main] returns 0. *)
Theorem main_last_line_without_newline fuel k cmd k2 :
  k_eof k = false ->
  snd (read_line (k_stdin k)) = None ->
  parse_input (fst (read_line (k_stdin k))) = inr cmd ->
  String.eqb (file cmd) "exit" = false ->
  exec_command cmd (after_getline k) = Returns tt k2 ->
  main (S (S fuel)) k = Returns 0 k2 /\ k_eof k2 = true.
Proof.
  intros Heof Hnone Hp Hexit Hrun.
  assert (Heof1 : k_eof (after_getline k) = true).
  { unfold after_getline, getline. simpl.
    destruct (read_line (k_stdin k)) as [line [rest|]];
      [discriminate Hnone|reflexivity]. }
  assert (Heof2 : k_eof k2 = true).
  { pose proof (exec_command_turns _ _ _ Hrun) as Ht.
    unfold turns_left in Ht. rewrite Heof1 in Ht.
    destruct (k_eof k2); [reflexivity|discriminate Ht]. }
  split; [|exact Heof2].
  unfold main, mbind, M_bind, try_catch. simpl main_loop.
  unfold mbind at 1, M_bind at 1, eof. rewrite Heof.
  unfold mbind at 1, M_bind at 1. rewrite repl_loop_eq, Hp, Hexit.
  rewrite exec_then_true, Hrun.
  unfold mbind, M_bind. rewrite Heof2. reflexivity.
Qed.

Lemma main_last_line_without_newline_witness :
  let k := shell_last_line in
  let k2 := final (exec_command (Command "ls" []) (after_getline k)) in
  k_eof k = false
  /\ snd (read_line (k_stdin k)) = None
  /\ parse_input (fst (read_line (k_stdin k))) = inr (Command "ls" [])
  /\ String.eqb "ls" "exit" = false
  /\ exec_command (Command "ls" []) (after_getline k) = Returns tt k2
  /\ main 2 k = Returns 0 k2
  /\ k_eof k2 = true.
Proof.
  intros k k2.
  assert (Hp : parse_input (fst (read_line (k_stdin k))) = inr (Command "ls" []))
    by (vm_compute; reflexivity).
  assert (Hrun : exec_command (Command "ls" []) (after_getline k)
                 = Returns tt k2) by (vm_compute; reflexivity).
  split; [reflexivity|]. split; [reflexivity|]. split; [exact Hp|].
  split; [reflexivity|]. split; [exact Hrun|].
  apply (main_last_line_without_newline 0 k (Command "ls" []) k2);
    [reflexivity|reflexivity|exact Hp|reflexivity|exact Hrun].
Defined.

Lemma repl_loop_stops_on_exit_witness :
  let k := shell_exit_line in
  let k' := final (repl_loop k) in
  repl_loop k = Returns false k'
  /\ parse_input (fst (read_line (k_stdin k))) = inr (Command "exit" ["now"])
  /\ events k k' = [EvWrite Stdout [Str "> "]; EvGetline "exit now";
                    EvWrite Stdout [Str "exiting!"; Endl]].
Proof.
  intros k k'.
  destruct (repl_loop_stops_on_exit shell_exit_line k') as [Hiff Hev].
  assert (Hp : parse_input (fst (read_line (k_stdin k)))
               = inr (Command "exit" ["now"])) by (vm_compute; reflexivity).
  assert (H : repl_loop k = Returns false k').
  { apply Hiff. exists ["now"]. split; [exact Hp|]. vm_compute. reflexivity. }
  split; [exact H|]. split; [exact Hp|]. apply Hev. exact H.
Defined.

Lemma repl_loop_throws_on_empty_line_witness :
  let k := shell_empty_line in
  repl_loop k = Throws "Empty command" (after_getline k).
Proof.
  intros k.
  apply (repl_loop_throws_on_empty_line shell_empty_line "Empty command"
           (after_getline shell_empty_line)).
  split; [reflexivity|]. split; reflexivity.
Defined.

(** ** A whole session *)

Lemma run_ok_refl k : run_ok k k.
Proof.
  exists []. rewrite app_nil_r. split; [reflexivity|apply List.Forall_nil].
Qed.

Lemma run_ok_trans k1 k2 k3 : run_ok k1 k2 -> run_ok k2 k3 -> run_ok k1 k3.
Proof.
  intros (l1 & H1 & F1) (l2 & H2 & F2). exists (l1 ++ l2)%list. split.
  - rewrite H2, H1, app_assoc. reflexivity.
  - apply Forall_app. split; assumption.
Qed.

(** A list of observations written out, one obligation for each. *)
Ltac each_obs tac :=
  repeat (apply List.Forall_cons; [tac|]); apply List.Forall_nil.

Lemma orderly_seen_calm k e : calm k -> orderly (seen k e).
Proof.
  intros [Hs Hc]. unfold orderly, seen. simpl. rewrite Hs, Hc. simpl.
  split; [lia|]. split; [reflexivity|discriminate].
Qed.

Lemma run_ok_log k e : calm k -> run_ok k (log e k) /\ calm (log e k).
Proof.
  intros Hk. split; [|exact Hk]. exists [seen k e]. split; [reflexivity|].
  each_obs ltac:(apply orderly_seen_calm; exact Hk).
Qed.

Lemma run_ok_after_getline k :
  calm k -> run_ok k (after_getline k) /\ calm (after_getline k).
Proof.
  intros Hk. split.
  - eexists. split; [apply after_getline_trace|].
    each_obs ltac:(apply orderly_seen_calm; exact Hk).
  - unfold after_getline, getline. simpl.
    destruct (read_line (k_stdin k)) as [line [rest|]]; exact Hk.
Qed.

Ltac orderly_obs :=
  unfold orderly; simpl;
  repeat split; intros; try lia; try discriminate; try reflexivity; auto.

Lemma orderly_announce cmd k :
  calm k -> Forall orderly (map (seen k) (announce cmd (k_pid k))).
Proof.
  intros Hk. apply Forall_forall. intros x Hx.
  apply list_elem_of_In, in_map_iff in Hx as (e & <- & _).
  apply orderly_seen_calm. exact Hk.
Qed.

(** After the fork, on the parent's side, with at most the new child
    unwaited. *)
Lemma orderly_bracket k2 :
  k_sigint k2 = SIG_DFL ->
  (length (k_children k2) <= 1)%nat ->
  Forall orderly (bracket_calls k2)
  /\ (k_children (final (wait_bracket k2)) = []
      \/ wait_bracket k2 = Blocks (final (wait_bracket k2))).
Proof.
  intros Hs Hc. unfold bracket_calls. rewrite wait_bracket_children.
  rewrite (wait_bracket_outcome k2). rewrite Hs.
  destruct (k_children k2) as [|[c fate] [|c2 cs]]; [| |simpl in Hc; lia].
  - assert (Hw : wait_on (k_sigchld_ign k2) [] = WaitFails [])
      by (destruct (k_sigchld_ign k2); reflexivity).
    rewrite Hw. split; [|left; reflexivity].
    each_obs orderly_obs.
  - destruct (k_sigchld_ign k2), fate as [st|]; simpl;
      (split; [each_obs orderly_obs|auto]).
Qed.

Lemma bracket_run_ok k k2 l :
  k_trace k2 = (k_trace k ++ l)%list ->
  Forall orderly l ->
  k_sigint k2 = SIG_DFL ->
  (length (k_children k2) <= 1)%nat ->
  run_ok k (final (wait_bracket k2))
  /\ forall k', wait_bracket k2 = Returns tt k' -> calm k'.
Proof.
  intros Ht Hl Hs Hc. destruct (orderly_bracket k2 Hs Hc) as [Hb Hend].
  split.
  - exists (l ++ bracket_calls k2)%list. split.
    + rewrite wait_bracket_trace, Ht, app_assoc. reflexivity.
    + apply Forall_app. split; assumption.
  - intros k' Hr.
    assert (Hk' : k' = final (wait_bracket k2)) by (rewrite Hr; reflexivity).
    subst k'. split.
    + rewrite wait_bracket_sigint. rewrite wait_bracket_outcome in Hr.
      destruct (wait_on _ _); [discriminate Hr|reflexivity|reflexivity].
    + destruct Hend as [Hnil|Hblocks]; [exact Hnil|].
      rewrite Hblocks in Hr. discriminate Hr.
Qed.

Lemma in_child_trace cmd k pid fs :
  next_fork k = (InChild pid, fs) ->
  k_trace (final (exec_command cmd k)) =
  (k_trace k
   ++ map (seen k) (announce cmd (k_pid k)) ++ child_calls cmd pid k)%list.
Proof.
  intros H. rewrite (exec_command_in_child _ _ _ _ H). unfold child_calls.
  destruct (k_exec k (file cmd) (build_argv cmd)); simpl;
    rewrite <- ?app_assoc; reflexivity.
Qed.

(** One launch, from a calm shell. *)
Lemma exec_command_run_ok cmd k :
  calm k ->
  run_ok k (final (exec_command cmd k))
  /\ forall k', exec_command cmd k = Returns tt k' -> calm k'.
Proof.
  intros Hk. pose proof Hk as [Hs Hc].
  pose proof (orderly_announce cmd k Hk) as Ha.
  destruct (next_fork k) as [[e|pid|c fate rank] fs] eqn:Hf.
  - rewrite (exec_command_fork_fails _ _ _ _ Hf).
    apply (bracket_run_ok k _
             (map (seen k) (announce cmd (k_pid k))
              ++ [seen k (EvFork (-1))])%list).
    + simpl. rewrite <- app_assoc. reflexivity.
    + apply Forall_app. split; [exact Ha|].
      each_obs ltac:(apply orderly_seen_calm; exact Hk).
    + exact Hs.
    + simpl. rewrite Hc. simpl. lia.
  - split.
    + eexists. split; [apply (in_child_trace _ _ _ _ Hf)|].
      apply Forall_app. split; [exact Ha|]. unfold child_calls. rewrite Hs.
      destruct (k_exec k (file cmd) (build_argv cmd)); each_obs orderly_obs.
    + rewrite (exec_command_in_child _ _ _ _ Hf).
      destruct (k_exec k (file cmd) (build_argv cmd)); discriminate.
  - rewrite (exec_command_in_parent _ _ _ _ _ _ Hf).
    apply (bracket_run_ok k _
             (map (seen k) (announce cmd (k_pid k))
              ++ [Obs (EvFork (Z.pos c)) (k_sigint k)
                      (map fst (insert_at rank (c, fate) (k_children k)))])%list).
    + simpl. rewrite <- app_assoc. reflexivity.
    + apply Forall_app. split; [exact Ha|].
      rewrite Hs, Hc, insert_at_only. each_obs orderly_obs.
    + exact Hs.
    + simpl. rewrite Hc, insert_at_only. simpl. lia.
Qed.

Lemma main_loop_step fuel k :
  main_loop (S fuel) k =
  if k_eof k then Returns tt k
  else match repl_loop k with
       | Returns true k' => main_loop fuel k'
       | Returns false k' => Returns tt k'
       | Throws e k' => Throws e k'
       | Exits s k' => Exits s k'
       | Replaced p v k' => Replaced p v k'
       | Blocks k' => Blocks k'
       | OutOfFuel k' => OutOfFuel k'
       end.
Proof.
  simpl. unfold mbind, M_bind, eof. destruct (k_eof k); [reflexivity|].
  destruct (repl_loop k) as [[] k'| | | | |]; reflexivity.
Qed.

(** The loop of [main], from a calm shell: the calls are orderly, and the
    shell is calm again wherever the loop comes back or throws. *)
Lemma main_loop_run_ok fuel k :
  calm k ->
  run_ok k (final (main_loop fuel k))
  /\ match main_loop fuel k with
     | Returns _ k' | Throws _ k' => calm k'
     | _ => True
     end.
Proof.
  revert k. induction fuel as [|fuel IH]; intros k Hk.
  - simpl. split; [apply run_ok_refl|exact I].
  - rewrite main_loop_step. destruct (k_eof k).
    + simpl. split; [apply run_ok_refl|exact Hk].
    + rewrite repl_loop_eq.
      destruct (run_ok_after_getline k Hk) as [H1 Hk1].
      destruct (parse_input _) as [what|cmd].
      * simpl. split; assumption.
      * destruct (String.eqb (file cmd) "exit").
        -- simpl.
           destruct (run_ok_log (after_getline k)
                       (EvWrite Stdout [Str "exiting!"; Endl]) Hk1)
             as [H2 Hk2].
           split; [apply (run_ok_trans _ _ _ H1 H2)|exact Hk2].
        -- rewrite exec_then_true.
           destruct (exec_command_run_ok cmd (after_getline k) Hk1)
             as [H2 Hret].
           destruct (exec_command cmd (after_getline k)) as [[] k2| | | | |]
             eqn:E; simpl in *;
             try (split; [apply (run_ok_trans _ _ _ H1 H2)|exact I]).
           ++ destruct (IH k2 (Hret k2 eq_refl)) as [H3 Hend].
              split; [|exact Hend].
              apply (run_ok_trans _ _ _ H1), (run_ok_trans _ _ _ H2), H3.
           ++ pose proof (exec_command_no_throw cmd (after_getline k)) as Hn.
              rewrite E in Hn. discriminate Hn.
Qed.

Lemma main_eq fuel k :
  main fuel k =
  match main_loop fuel k with
  | Returns _ k' => Returns 0 k'
  | Throws e k' =>
      Returns 0 (log (EvWrite Stderr [Str "Fatal error: "; Str e; Endl]) k')
  | Exits s k' => Exits s k'
  | Replaced p v k' => Replaced p v k'
  | Blocks k' => Blocks k'
  | OutOfFuel k' => OutOfFuel k'
  end.
Proof.
  unfold main, mbind, M_bind, try_catch, cerr, write, mret, M_ret.
  destruct (main_loop fuel k); reflexivity.
Qed.

(** X12. A whole session of the shell, started with SIGINT at its default
    and without unwaited children, stays orderly call after call: at most
    one child is unwaited at any time; at every [fork] SIGINT is at its
    default, so that every launched program inherits the default; SIGINT is
    ignored only from the [signal] call after a fork to the return of the
    [wait] that follows.  When [main] returns, SIGINT is at its default and
    no child is left unwaited. *)
Theorem session_is_orderly fuel k :
  calm k ->
  Forall orderly (calls k (final (main fuel k)))
  /\ forall r k', main fuel k = Returns r k' -> calm k'.
Proof.
  intros Hk. destruct (main_loop_run_ok fuel k Hk) as [Hrun Hend].
  assert (H : run_ok k (final (main fuel k))
              /\ forall r k', main fuel k = Returns r k' -> calm k').
  { rewrite main_eq.
    destruct (main_loop fuel k) as [[] k1|e k1| | | |]; simpl in *;
      try (split; [exact Hrun|intros r k' Hr; discriminate Hr]).
    - split; [exact Hrun|]. intros r k' [= _ <-]. exact Hend.
    - destruct (run_ok_log k1
                  (EvWrite Stderr [Str "Fatal error: "; Str e; Endl]) Hend)
        as [H2 Hk2].
      split; [apply (run_ok_trans _ _ _ Hrun H2)|].
      intros r k' [= _ <-]. exact Hk2. }
  destruct H as [(l & Ht & Hl) Hret]. split; [|exact Hret].
  rewrite (calls_app _ _ _ Ht). exact Hl.
Qed.

Lemma session_is_orderly_witness :
  let k := shell_session in
  calm k
  /\ Forall orderly (calls k (final (main 3 k)))
  /\ forall r k', main 3 k = Returns r k' -> calm k'.
Proof.
  intros k.
  assert (Hk : calm k) by (split; reflexivity).
  split; [exact Hk|]. apply (session_is_orderly 3 shell_session Hk).
Defined.

(** ** The shell outlives its launches *)

Lemma wait_on_terminating (b : bool) (cs : list child) :
  forallb terminates cs = true -> wait_on b cs <> WaitBlocks.
Proof.
  intros H. unfold wait_on. rewrite H. destruct b; [discriminate|].
  destruct cs as [|[c [st|]] cs]; simpl in *; discriminate.
Qed.

Lemma bracket_survives k2 :
  let o := wait_bracket k2 in
  (o = Returns tt (final o) \/ o = Blocks (final o))
  /\ List.filter (fun e => is_execvp e || is_exit e)
       (map ev (bracket_calls k2)) = []
  /\ k_pid (final o) = k_pid k2
  /\ (forallb terminates (k_children k2) = true -> o = Returns tt (final o)).
Proof.
  intros o. unfold o.
  pose proof (wait_on_terminating (k_sigchld_ign k2) (k_children k2)) as Hw.
  rewrite (wait_bracket_outcome k2). unfold bracket_calls, wait_bracket.
  destruct (wait_on (k_sigchld_ign k2) (k_children k2)); simpl;
    repeat split; auto.
  intros H. destruct (Hw H). reflexivity.
Qed.

(** X14. In the parent (and when [fork] fails) [exec_command] runs none of
    the child's code: it calls neither [execvp] nor [exit], stays the same
    process, and either returns or is blocked in [wait].  It returns as soon
    as every unwaited child of the shell, the new one included, terminates:
    only a child that runs for ever keeps the shell from its next prompt. *)
Theorem shell_survives_launch cmd k :
  (forall pid, fst (next_fork k) <> InChild pid) ->
  let o := exec_command cmd k in
  (o = Returns tt (final o) \/ o = Blocks (final o))
  /\ List.filter (fun e => is_execvp e || is_exit e) (events k (final o)) = []
  /\ k_pid (final o) = k_pid k
  /\ (forallb terminates (children_after_fork k) = true ->
      o = Returns tt (final o)).
Proof.
  intros Hside o. unfold o, children_after_fork.
  destruct (next_fork k) as [[e|pid|c fate rank] fs] eqn:Hf; simpl fst.
  - rewrite (fork_fails_events _ _ _ _ Hf), (exec_command_fork_fails _ _ _ _ Hf).
    destruct (bracket_survives (fork_failed cmd e fs k)) as (H1 & H2 & H3 & H4).
    skip_announce.
    change (List.filter ?f (EvFork ?r :: ?l)) with (List.filter f l).
    rewrite H2.
    split; [exact H1|]. split; [reflexivity|]. split; [exact H3|exact H4].
  - destruct (Hside pid). reflexivity.
  - rewrite (parent_events _ _ _ _ _ _ Hf),
      (exec_command_in_parent _ _ _ _ _ _ Hf).
    destruct (bracket_survives (parent_forked cmd c fate rank fs k))
      as (H1 & H2 & H3 & H4).
    skip_announce.
    change (List.filter ?f (EvFork ?r :: ?l)) with (List.filter f l).
    rewrite H2.
    split; [exact H1|]. split; [reflexivity|]. split; [exact H3|exact H4].
Qed.

Lemma shell_survives_launch_witness :
  let k := shell_with_child_7 in
  let o := exec_command sleep_5 k in
  (forall pid, fst (next_fork k) <> InChild pid)
  /\ (o = Returns tt (final o) \/ o = Blocks (final o))
  /\ List.filter (fun e => is_execvp e || is_exit e) (events k (final o)) = []
  /\ k_pid (final o) = 10
  /\ (forallb terminates (children_after_fork k) = true ->
      o = Returns tt (final o)).
Proof.
  intros k o.
  assert (H : forall pid, fst (next_fork k) <> InChild pid)
    by (intros pid; discriminate).
  split; [exact H|]. apply (shell_survives_launch sleep_5 shell_with_child_7 H).
Defined.
